(** * The executors manager of the CodeSandbox client

    A shallow embedding of [ExecutorsManager] and of the file-snapshot
    derivation [getModulesToSend] that it relies on.

    - JavaScript objects used as dictionaries ([IFiles]) are finite maps
      keyed by property name ([gmap string _]).  Keys are sandbox file
      paths; property names with a special meaning on [Object.prototype]
      are outside the model.
    - The two executor classes come from the external package
      [@codesandbox/executors]; they are unrelated classes, so
      [instanceof] is a test on the class an object was constructed from.
    - The manager is stateful and calls into the backend.  Its methods are
      computations in a state-and-exception monad over a [World] made of
      the manager's [executor] field, the allocator of object identities
      and the log of calls made to the backend.  An [await] of a backend
      promise is a sequential call that either resolves or throws: the
      embedding runs one manager method at a time. *)

From stdpp Require Import base option list gmap strings fin_maps sorting.

Open Scope string_scope.
Open Scope list_scope.

#[local] Set Warnings "-clear-no-such-hyp".

(** ** JavaScript values *)

(** A property of static type [A] that may also hold [undefined] or
    [null] at run time. *)
Inductive nullable (A : Type) : Type :=
| Undefined
| Null
| Val (a : A).
Arguments Undefined {A}.
Arguments Null {A}.
Arguments Val {A} a.

#[global] Instance nullable_eq_dec {A} `{EqDecision A} : EqDecision (nullable A).
Proof. solve_decision. Defined.

(** [if (path)] on a string-typed property: [undefined], [null] and the
    empty string are falsy; the result is the string when it is truthy. *)
Definition truthy (v : nullable string) : option string :=
  match v with
  | Val s => if decide (s = "") then None else Some s
  | Undefined | Null => None
  end.

(** Untyped view of a primitive value, used to compare object literals
    property by property. *)
Inductive JsVal : Type :=
| JsUndefined
| JsNull
| JsBool (b : bool)
| JsString (s : string).

#[global] Instance JsVal_eq_dec : EqDecision JsVal.
Proof. solve_decision. Defined.

Definition of_string (v : nullable string) : JsVal :=
  match v with
  | Undefined => JsUndefined
  | Null => JsNull
  | Val s => JsString s
  end.

Definition of_bool (v : nullable bool) : JsVal :=
  match v with
  | Undefined => JsUndefined
  | Null => JsNull
  | Val b => JsBool b
  end.

(** ** Data model *)

(** A module (file) of a sandbox; only the properties read by the manager. *)
Module Mod.
Record t : Type := mk {
  path : nullable string;
  code : nullable string;
  savedCode : nullable string;
  isBinary : nullable bool;
}.
End Mod.

(** An entry of [IFiles]: the object literal built for each module. *)
Module File.
Record t : Type := mk {
  code : nullable string;
  savedCode : nullable string;
  path : string;
  isBinary : nullable bool;
}.

#[global] Instance eq_dec : EqDecision t.
Proof. solve_decision. Defined.

(** The own properties of the literal, in the untyped view. *)
Definition props (f : t) : gmap string JsVal :=
  {[ "code" := of_string (code f);
     "savedCode" := of_string (savedCode f);
     "path" := JsString (path f);
     "isBinary" := of_bool (isBinary f) ]}.

(** Properties whose value is not [undefined]: the comparison that
    treats an [undefined] property as an absent one. *)
Definition defined_props (o : gmap string JsVal) : gmap string JsVal :=
  filter (λ kv, kv.2 ≠ JsUndefined) o.
End File.

Abbreviation IFiles := (gmap string File.t).

Record Sandbox : Type := mkSandbox {
  id : string;
  template : string;
  modules : list Mod.t;
}.

(** What [getDefinition] returns; the manager only reads [isServer]. *)
Module Template.
Record t : Type := mk {
  isServer : bool;
}.
End Template.

(** ** Executors *)

(** The two classes exported by [@codesandbox/executors]. *)
Inductive ExecutorClass : Type :=
| ServerExecutor
| SandboxExecutor.

#[global] Instance ExecutorClass_eq_dec : EqDecision ExecutorClass.
Proof. solve_decision. Defined.

(** An executor object: the class it was constructed from and its
    identity (two objects are the same reference iff they are equal). *)
Record Executor : Type := mkExecutor {
  class : ExecutorClass;
  ref : nat;
}.

#[global] Instance Executor_eq_dec : EqDecision Executor.
Proof. solve_decision. Defined.

Definition instanceof (e : Executor) (C : ExecutorClass) : bool :=
  bool_decide (class e = C).

(** The argument of [IExecutor.initialize]. *)
Record InitOptions : Type := mkInitOptions {
  sandboxId : string;
  files : IFiles;
  host : string;
}.

(** A call made by the manager into the backend. *)
Inductive Call : Type :=
| New (e : Executor)
| Dispose (e : Executor)
| Initialize (e : Executor) (opts : InitOptions)
| Setup (e : Executor)
| UpdateFiles (e : Executor) (modules : IFiles).

Inductive Exn : Type :=
| TypeError (property : string)
| BackendError (message : string).

(** The manager's [executor] field ([None] is [undefined]), the next
    unused object identity, and the calls made so far, oldest first. *)
Record World : Type := mkWorld {
  executor : option Executor;
  fresh : nat;
  calls : list Call;
}.

(** ** The monad of manager methods *)

Definition M (A : Type) : Type := World → World * (Exn + A).

#[global] Instance M_ret : MRet M := λ A a w, (w, inr a).

#[global] Instance M_bind : MBind M := λ A B k c w,
  match c w with
  | (w', inr a) => k a w'
  | (w', inl x) => (w', inl x)
  end.

Definition throw {A} (x : Exn) : M A := λ w, (w, inl x).

Definition get_executor : M (option Executor) := λ w, (w, inr (executor w)).

Definition set_executor (e : option Executor) : M unit := λ w,
  (mkWorld e (fresh w) (calls w), inr tt).

(** Member access [o.property] on a possibly [undefined] object. *)
Definition member (o : option Executor) (property : string) : M Executor :=
  match o with
  | Some e => mret e
  | None => throw (TypeError property)
  end.

Definition is_dispose (c : Call) : bool :=
  match c with Dispose _ => true | _ => false end.

Definition is_new (c : Call) : bool :=
  match c with New _ => true | _ => false end.

(** ** The collaborators

    What the manager imports or reads and this file does not define:
    - [generateFileFromSandbox] of
      [@codesandbox/common/lib/templates/configuration/package-json];
    - [getDefinition] of [@codesandbox/common/lib/templates];
    - [process.env.STAGING_API];
    - the backend, which is opaque: given the calls made so far and the
      call being made, it says whether that call throws (for a promise:
      rejects), and with which message. *)
Class Environment : Type := {
  generateFileFromSandbox : Sandbox → string;
  getDefinition : string → Template.t;
  STAGING_API : nullable string;
  backend : list Call → Call → option string;
}.

Section Executors.

Context `{Environment}.

(** ** The file snapshot *)

(** The body of the [forEach] callback. *)
Definition record_module (modulesObject : IFiles) (m : Mod.t) : IFiles :=
  match truthy (Mod.path m) with
  | Some path =>
      <[ path := {| File.code := Mod.code m;
                    File.savedCode := Mod.savedCode m;
                    File.path := path;
                    File.isBinary := Mod.isBinary m |} ]> modulesObject
  | None => modulesObject
  end.

Definition synthesized_manifest (sandbox : Sandbox) : File.t :=
  {| File.code := Val (generateFileFromSandbox sandbox);
     File.savedCode := Null;
     File.path := "/package.json";
     File.isBinary := Val false |}.

Definition getModulesToSend (sandbox : Sandbox) : IFiles :=
  let modulesObject := foldl record_module ∅ (modules sandbox) in
  match modulesObject !! "/package.json" with
  | Some _ => modulesObject
  | None => <[ "/package.json" := synthesized_manifest sandbox ]> modulesObject
  end.


(** ** Calls into the backend *)

(** Make a call: log it, then resolve or throw as the backend decides. *)
Definition invoke (c : Call) : M unit := λ w,
  let w' := mkWorld (executor w) (fresh w) (calls w ++ [c]) in
  match backend (calls w) c with
  | None => (w', inr tt)
  | Some message => (w', inl (BackendError message))
  end.

(** [new ExecutorType()]: a fresh object of that class. *)
Definition new (ExecutorType : ExecutorClass) : M Executor := λ w,
  let e := mkExecutor ExecutorType (fresh w) in
  let w' := mkWorld (executor w) (S (fresh w)) (calls w ++ [New e]) in
  match backend (calls w) (New e) with
  | None => (w', inr e)
  | Some message => (w', inl (BackendError message))
  end.

(** ** ExecutorsManager *)

Definition getExecutorType (isServer : bool) : ExecutorClass :=
  if isServer then ServerExecutor else SandboxExecutor.

Definition sseHost : string :=
  match truthy STAGING_API with
  | Some _ => "https://codesandbox.stream"
  | None => "https://codesandbox.io"
  end.

Definition initializeExecutor (sandbox : Sandbox) : M (option Executor) :=
  let isServer := Template.isServer (getDefinition (template sandbox)) in
  let ExecutorType := getExecutorType isServer in
  this_executor ← get_executor;
  match this_executor with
  | Some e =>
      if negb (instanceof e ExecutorType)
      then invoke (Dispose e);; set_executor None
      else mret tt
  | None => mret tt
  end;;
  this_executor ← get_executor;
  match this_executor with
  | None => e ← new ExecutorType; set_executor (Some e)
  | Some _ => mret tt
  end;;
  this_executor ← get_executor;
  e ← member this_executor "initialize";
  invoke (Initialize e {| sandboxId := id sandbox;
                          files := getModulesToSend sandbox;
                          host := sseHost |});;
  get_executor.

Definition getExecutor : M (option Executor) := get_executor.

Definition setupExecutor : M unit :=
  this_executor ← getExecutor;
  e ← member this_executor "setup";
  invoke (Setup e).

Definition isServer : M bool :=
  this_executor ← get_executor;
  mret match this_executor with
       | Some e => instanceof e ServerExecutor
       | None => false
       end.

Definition updateFiles (sandbox : Sandbox) : M unit :=
  let modules := getModulesToSend sandbox in
  this_executor ← get_executor;
  e ← member this_executor "updateFiles";
  invoke (UpdateFiles e modules).

Definition closeExecutor : M unit :=
  this_executor ← get_executor;
  e ← member this_executor "dispose";
  invoke (Dispose e);;
  set_executor None.

(** The class of executor a sandbox requires, and the options it is
    initialized with. *)
Definition required_class (sandbox : Sandbox) : ExecutorClass :=
  getExecutorType (Template.isServer (getDefinition (template sandbox))).

Definition init_options (sandbox : Sandbox) : InitOptions :=
  {| sandboxId := id sandbox;
     files := getModulesToSend sandbox;
     host := sseHost |}.

(** ** The snapshot as the specification words it

    Read off by path: the entry under a path comes from the last module,
    in the order of the sandbox, whose path is that non-empty path; the
    manifest path, when no module has it, holds an entry made from the
    sandbox, with a null [savedCode] and [isBinary] false. *)

Definition written_at (path : string) (m : Mod.t) : Prop :=
  Mod.path m = Val path ∧ path ≠ "".

#[global] Instance written_at_dec path m : Decision (written_at path m).
Proof. unfold written_at. apply _. Defined.

Definition last_write (path : string) (ms : list Mod.t) : option Mod.t :=
  last (filter (written_at path) ms).

Definition snapshot_at (sandbox : Sandbox) (path : string) : option File.t :=
  match last_write path (modules sandbox) with
  | Some m => Some (File.mk (Mod.code m) (Mod.savedCode m) path (Mod.isBinary m))
  | None =>
      if decide (path = "/package.json")
      then Some (File.mk (Val (generateFileFromSandbox sandbox)) Null
                         "/package.json" (Val false))
      else None
  end.

(** The non-empty paths of the modules, in order, with repetitions. *)
Definition module_paths (sandbox : Sandbox) : list string :=
  omap (λ m, truthy (Mod.path m)) (modules sandbox).

(** The calls made between two worlds, the later one extending the log
    of the earlier. *)
Definition calls_since (w w' : World) : list Call :=
  drop (length (calls w)) (calls w').

(** ** Runs of the manager *)

(** A caller that awaits [initializeExecutor] for one sandbox after the
    other and stops at the first failure. *)
Fixpoint initializeAll (sandboxes : list Sandbox) : M unit :=
  match sandboxes with
  | [] => mret ()
  | sandbox :: rest => initializeExecutor sandbox;; initializeAll rest
  end.

(** How often the required class changes along a list of sandboxes,
    starting from class [current]. *)
Fixpoint class_changes (current : ExecutorClass) (sandboxes : list Sandbox) : nat :=
  match sandboxes with
  | [] => 0
  | sandbox :: rest =>
      (if decide (required_class sandbox = current) then 0 else 1)
      + class_changes (required_class sandbox) rest
  end.

(** One method call on the manager, whatever its outcome. *)
Inductive step : World → World → Prop :=
| step_initializeExecutor sandbox w w' r :
    initializeExecutor sandbox w = (w', r) → step w w'
| step_setupExecutor w w' r :
    setupExecutor w = (w', r) → step w w'
| step_updateFiles sandbox w w' r :
    updateFiles sandbox w = (w', r) → step w w'
| step_closeExecutor w w' r :
    closeExecutor w = (w', r) → step w w'.

(** The worlds a manager created by [new ExecutorsManager()] can be in
    between method calls, when every call is awaited before the next one
    is made (calls that overlap are outside the embedding). *)
Definition reachable (w : World) : Prop :=
  rtc step {| executor := None; fresh := 0; calls := [] |} w.

End Executors.

(** ** Sample data *)

Definition a_js : Mod.t :=
  {| Mod.path := Val "/a.js"; Mod.code := Val "x";
     Mod.savedCode := Undefined; Mod.isBinary := Undefined |}.

Definition browser_sandbox : Sandbox :=
  {| id := "new"; template := "create-react-app"; modules := [a_js] |}.

Definition server_sandbox : Sandbox :=
  {| id := "node-box"; template := "node"; modules := [a_js] |}.

Definition sample_getDefinition (template : string) : Template.t :=
  {| Template.isServer := bool_decide (template = "node") |}.

Definition sample_generateFile (sandbox : Sandbox) : string :=
  ("{ name: " ++ id sandbox ++ " }")%string.

Definition quiet_backend (history : list Call) (c : Call) : option string :=
  None.

Definition failing_dispose (history : list Call) (c : Call) : option string :=
  if is_dispose c then Some "dispose failed" else None.

Definition no_executor : World :=
  {| executor := None; fresh := 0; calls := [] |}.

Definition quiet : Environment :=
  {| generateFileFromSandbox := sample_generateFile;
     getDefinition := sample_getDefinition;
     STAGING_API := Undefined;
     backend := quiet_backend |}.

Definition failing : Environment :=
  {| generateFileFromSandbox := sample_generateFile;
     getDefinition := sample_getDefinition;
     STAGING_API := Undefined;
     backend := failing_dispose |}.

Definition server_executor : Executor :=
  {| class := ServerExecutor; ref := 0 |}.

Definition browser_executor : Executor :=
  {| class := SandboxExecutor; ref := 1 |}.

(** The world after [initializeExecutor(server_sandbox)] on a fresh
    manager, in either sample environment. *)
Definition server_world : World :=
  {| executor := Some server_executor;
     fresh := 1;
     calls := [New server_executor;
               Initialize server_executor (@init_options quiet server_sandbox)] |}.


(** [server_world] after [initializeExecutor(browser_sandbox)]. *)
Definition browser_world : World :=
  {| executor := Some browser_executor;
     fresh := 2;
     calls := calls server_world
              ++ [Dispose server_executor;
                  New browser_executor;
                  Initialize browser_executor (@init_options quiet browser_sandbox)] |}.

(** [server_world] after [closeExecutor()]. *)
Definition closed_world : World :=
  {| executor := None;
     fresh := 1;
     calls := calls server_world ++ [Dispose server_executor] |}.

(** [server_world] after one and two [updateFiles(browser_sandbox)]. *)
Definition updated_once : World :=
  {| executor := Some server_executor;
     fresh := 1;
     calls := calls server_world
              ++ [UpdateFiles server_executor (@getModulesToSend quiet browser_sandbox)] |}.

Definition updated_twice : World :=
  {| executor := Some server_executor;
     fresh := 1;
     calls := calls updated_once
              ++ [UpdateFiles server_executor (@getModulesToSend quiet browser_sandbox)] |}.

Section Properties.

Context `{Environment}.

(** ** Properties of the snapshot derivation *)

Lemma truthy_Some v path : truthy v = Some path ↔ v = Val path ∧ path ≠ "".
Proof.
  destruct v as [| |s]; simpl; [naive_solver..|].
  case_decide; naive_solver.
Qed.

Lemma truthy_written_at m path :
  truthy (Mod.path m) = Some path ↔ written_at path m.
Proof. apply truthy_Some. Qed.

Lemma record_module_lookup acc m path :
  record_module acc m !! path =
    if decide (written_at path m)
    then Some (File.mk (Mod.code m) (Mod.savedCode m) path (Mod.isBinary m))
    else acc !! path.
Proof.
  unfold record_module.
  destruct (truthy (Mod.path m)) as [q|] eqn:Hq.
  - apply truthy_written_at in Hq.
    destruct (decide (q = path)) as [->|Hne].
    + rewrite lookup_insert_eq. by rewrite decide_True.
    + rewrite lookup_insert_ne by done.
      rewrite decide_False; [done|].
      intros [Hp _]. destruct Hq as [Hq _]. congruence.
  - rewrite decide_False; [done|].
    intros Hw. apply truthy_written_at in Hw. congruence.
Qed.

Lemma foldl_record_module_lookup ms acc path :
  foldl record_module acc ms !! path =
    match last_write path ms with
    | Some m => Some (File.mk (Mod.code m) (Mod.savedCode m) path (Mod.isBinary m))
    | None => acc !! path
    end.
Proof.
  unfold last_write.
  induction ms as [|m ms IH] using rev_ind; [done|].
  rewrite foldl_snoc, record_module_lookup, filter_app, IH.
  rewrite filter_cons, filter_nil.
  case_decide.
  - by rewrite last_snoc.
  - by rewrite app_nil_r.
Qed.

Lemma record_module_dom acc m :
  dom (record_module acc m) =
    dom acc ∪ list_to_set (option_list (truthy (Mod.path m))).
Proof.
  unfold record_module. destruct (truthy (Mod.path m)); simpl.
  - rewrite dom_insert_L. set_solver.
  - set_solver.
Qed.

Lemma foldl_record_module_dom ms acc :
  dom (foldl record_module acc ms) =
    dom acc ∪ list_to_set (omap (λ m, truthy (Mod.path m)) ms).
Proof.
  revert acc. induction ms as [|m ms IH]; intros acc; simpl.
  - set_solver.
  - rewrite IH, record_module_dom.
    destruct (truthy (Mod.path m)); simpl; set_solver.
Qed.

Lemma getModulesToSend_lookup sandbox path :
  getModulesToSend sandbox !! path = snapshot_at sandbox path.
Proof.
  unfold getModulesToSend, snapshot_at; simpl.
  destruct (foldl record_module ∅ (modules sandbox) !! "/package.json")
    as [f|] eqn:Hpkg.
  - rewrite foldl_record_module_lookup.
    destruct (last_write path (modules sandbox)) eqn:Hl; [done|].
    rewrite lookup_empty. case_decide as Hp; [|done].
    subst path. rewrite foldl_record_module_lookup, Hl, lookup_empty in Hpkg.
    done.
  - destruct (decide (path = "/package.json")) as [->|Hne].
    + rewrite lookup_insert_eq.
      rewrite foldl_record_module_lookup in Hpkg.
      destruct (last_write "/package.json" (modules sandbox)); done.
    + rewrite lookup_insert_ne by done.
      rewrite foldl_record_module_lookup, lookup_empty.
      done.
Qed.

Lemma getModulesToSend_dom sandbox :
  dom (getModulesToSend sandbox) =
    list_to_set (module_paths sandbox ++ ["/package.json"]).
Proof.
  unfold getModulesToSend, module_paths; simpl.
  rewrite list_to_set_app_L.
  destruct (foldl record_module ∅ (modules sandbox) !! "/package.json")
    as [f|] eqn:Hpkg.
  - apply (elem_of_dom_2 (D := gset string)) in Hpkg.
    rewrite foldl_record_module_dom in Hpkg |- *. set_solver.
  - rewrite dom_insert_L, foldl_record_module_dom. set_solver.
Qed.

Lemma size_list_to_set_remove_dups (l : list string) :
  size (list_to_set (C := gset string) l) = length (remove_dups l).
Proof.
  rewrite <- (size_list_to_set (C := gset string) (remove_dups l))
    by apply NoDup_remove_dups.
  f_equal. apply set_eq. intros x.
  rewrite !elem_of_list_to_set. by rewrite elem_of_remove_dups.
Qed.

(** C3: the snapshot built by [getModulesToSend] is the one the
    specification describes: under every path it holds the entry of the
    last module, in sandbox order, with that non-empty path; under
    [/package.json] it holds an entry synthesized from the sandbox, with
    a null [savedCode] and [isBinary] false, exactly when no module was
    recorded there; and it has one entry per distinct path. *)
Theorem getModulesToSend_refines_spec sandbox :
  (∀ path, getModulesToSend sandbox !! path = snapshot_at sandbox path)
  ∧ ((("/package.json" ∉ module_paths sandbox)
      ∧ getModulesToSend sandbox
          = <[ "/package.json" :=
                 File.mk (Val (generateFileFromSandbox sandbox)) Null
                         "/package.json" (Val false) ]>
              (foldl record_module ∅ (modules sandbox)))
     ∨ (("/package.json" ∈ module_paths sandbox)
        ∧ getModulesToSend sandbox = foldl record_module ∅ (modules sandbox)))
  ∧ size (getModulesToSend sandbox)
      = length (remove_dups (module_paths sandbox ++ ["/package.json"])).
Proof.
  split; [apply getModulesToSend_lookup|]. split.
  - unfold getModulesToSend; simpl.
    destruct (foldl record_module ∅ (modules sandbox) !! "/package.json")
      as [f|] eqn:Hpkg.
    + right. split; [|done].
      apply (elem_of_dom_2 (D := gset string)) in Hpkg.
      rewrite foldl_record_module_dom in Hpkg.
      unfold module_paths. set_solver.
    + left. split; [|done].
      apply (not_elem_of_dom_2 (D := gset string)) in Hpkg.
      rewrite foldl_record_module_dom in Hpkg.
      unfold module_paths. set_solver.
  - rewrite <- size_dom, getModulesToSend_dom.
    apply size_list_to_set_remove_dups.
Qed.

(** C10: every entry of a snapshot carries, in its [path] property, the
    key under which it is stored. *)
Theorem getModulesToSend_path_is_key sandbox path f :
  getModulesToSend sandbox !! path = Some f → File.path f = path.
Proof.
  rewrite getModulesToSend_lookup. unfold snapshot_at.
  destruct (last_write path (modules sandbox)).
  - by intros [= <-].
  - case_decide; [|done]. by intros [= <-].
Qed.

(** C7, with the [path] property the code writes: a sandbox whose only
    module is [{path: "/a.js", code: "x"}] has a snapshot of exactly two
    entries, the one of that module and the synthesized manifest. *)
Theorem getModulesToSend_single_module sandbox :
  modules sandbox = [a_js] →
  getModulesToSend sandbox =
    {[ "/a.js" := {| File.code := Val "x"; File.savedCode := Undefined;
                     File.path := "/a.js"; File.isBinary := Undefined |};
       "/package.json" :=
         {| File.code := Val (generateFileFromSandbox sandbox);
            File.savedCode := Null;
            File.path := "/package.json";
            File.isBinary := Val false |} ]}.
Proof.
  intros Hm. apply map_eq. intros path.
  rewrite getModulesToSend_lookup. unfold snapshot_at, last_write.
  rewrite Hm, filter_cons, filter_nil.
  destruct (decide (path = "/a.js")) as [->|Ha].
  - rewrite (decide_True (P := written_at "/a.js" a_js)) by done.
    by rewrite lookup_insert_eq.
  - rewrite (decide_False (P := written_at path a_js))
      by (intros [[= <-] _]; done).
    simpl. rewrite lookup_insert_ne by done.
    case_decide as Hp.
    + subst path. by rewrite lookup_singleton_eq.
    + by rewrite lookup_singleton_ne.
Qed.

(** ** Properties of the manager *)

Ltac run :=
  unfold initializeExecutor, setupExecutor, updateFiles, closeExecutor,
    isServer, getExecutor, member, throw, get_executor, set_executor,
    invoke, new, mbind, M_bind, mret, M_ret, instanceof,
    init_options, required_class in *;
  simpl.

Ltac branch :=
  match goal with
  | |- context [match backend ?h ?c with _ => _ end] =>
      destruct (backend h c) eqn:?; simpl
  | |- context [bool_decide ?P] =>
      destruct (bool_decide_reflect P); simpl
  end.

(** The three ways [initializeExecutor] can go, by the manager's
    [executor] field on entry. *)

Lemma initializeExecutor_reuse sandbox w e :
  executor w = Some e →
  class e = required_class sandbox →
  initializeExecutor sandbox w =
    let c := Initialize e (init_options sandbox) in
    let w' := mkWorld (Some e) (fresh w) (calls w ++ [c]) in
    match backend (calls w) c with
    | None => (w', inr (Some e))
    | Some message => (w', inl (BackendError message))
    end.
Proof.
  destruct w as [ex fr cs]; simpl. intros -> Hk.
  run. rewrite bool_decide_true by done. simpl.
  by branch.
Qed.

Lemma initializeExecutor_create sandbox w :
  executor w = None →
  initializeExecutor sandbox w =
    let e := mkExecutor (required_class sandbox) (fresh w) in
    let c := Initialize e (init_options sandbox) in
    match backend (calls w) (New e) with
    | Some message =>
        (mkWorld None (S (fresh w)) (calls w ++ [New e]),
         inl (BackendError message))
    | None =>
        let w' := mkWorld (Some e) (S (fresh w)) ((calls w ++ [New e]) ++ [c]) in
        match backend (calls w ++ [New e]) c with
        | None => (w', inr (Some e))
        | Some message => (w', inl (BackendError message))
        end
    end.
Proof.
  destruct w as [ex fr cs]; simpl. intros ->.
  run. branch; [done|]. by branch.
Qed.

Lemma initializeExecutor_replace sandbox w e :
  executor w = Some e →
  class e ≠ required_class sandbox →
  initializeExecutor sandbox w =
    match backend (calls w) (Dispose e) with
    | Some message =>
        (mkWorld (Some e) (fresh w) (calls w ++ [Dispose e]),
         inl (BackendError message))
    | None =>
        initializeExecutor sandbox
          (mkWorld None (fresh w) (calls w ++ [Dispose e]))
    end.
Proof.
  destruct w as [ex fr cs]; simpl. intros -> Hk.
  run. rewrite bool_decide_false by done. simpl.
  by branch.
Qed.

(** A returning call leaves the returned executor active. *)
Lemma initializeExecutor_returned sandbox w w' r :
  initializeExecutor sandbox w = (w', inr r) →
  ∃ e, r = Some e ∧ executor w' = Some e ∧ class e = required_class sandbox.
Proof.
  assert (Hcreate : ∀ v, executor v = None →
    initializeExecutor sandbox v = (w', inr r) →
    ∃ e, r = Some e ∧ executor w' = Some e ∧ class e = required_class sandbox).
  { intros v Hv. rewrite initializeExecutor_create by done; simpl.
    repeat branch; intros [= <- <-]; simpl; eauto. }
  destruct (executor w) as [e|] eqn:He; [|by apply Hcreate].
  destruct (decide (class e = required_class sandbox)) as [Hk|Hk].
  - rewrite (initializeExecutor_reuse _ _ e) by done; simpl.
    branch; intros [= <- <-]; simpl; eauto.
  - rewrite (initializeExecutor_replace _ _ e) by done.
    branch; [done|]. by apply Hcreate.
Qed.


Lemma calls_since_app w w' l :
  calls w' = calls w ++ l → calls_since w w' = l.
Proof. unfold calls_since. intros ->. by rewrite drop_app_length. Qed.

(** [initializeExecutor] returns when the backend lets every call
    through. *)
Lemma initializeExecutor_returns sandbox w :
  (∀ history c, backend history c = None) →
  ∃ w' e, initializeExecutor sandbox w = (w', inr (Some e)).
Proof.
  intros Hquiet.
  assert (Hcreate : ∀ v, executor v = None →
    ∃ w' e, initializeExecutor sandbox v = (w', inr (Some e))).
  { intros v Hv. rewrite initializeExecutor_create by done; simpl.
    rewrite !Hquiet. eauto. }
  destruct (executor w) as [e|] eqn:He; [|by apply Hcreate].
  destruct (decide (class e = required_class sandbox)) as [Hk|Hk].
  - rewrite (initializeExecutor_reuse _ _ e) by done; simpl.
    rewrite Hquiet. eauto.
  - rewrite (initializeExecutor_replace _ _ e), Hquiet by done.
    by apply Hcreate.
Qed.

(** What one returning call adds to the log: a dispose and a construction
    when the class changes, neither when it does not. *)
Lemma initializeExecutor_returned_calls sandbox w w' e r :
  executor w = Some e →
  initializeExecutor sandbox w = (w', inr r) →
  ∃ e', executor w' = Some e'
    ∧ class e' = required_class sandbox
    ∧ calls w' = calls w ++
        (if decide (required_class sandbox = class e)
         then [Initialize e' (init_options sandbox)]
         else [Dispose e; New e'; Initialize e' (init_options sandbox)]).
Proof.
  intros He Hrun.
  destruct (decide (required_class sandbox = class e)) as [Hk|Hk].
  - rewrite (initializeExecutor_reuse _ _ e) in Hrun by done. simpl in Hrun.
    destruct (backend _ _); [done|]. injection Hrun as <- <-. eauto.
  - rewrite (initializeExecutor_replace _ _ e) in Hrun by done.
    destruct (backend (calls w) (Dispose e)); [done|].
    rewrite initializeExecutor_create in Hrun by done. simpl in Hrun.
    repeat (destruct (backend _ _); [done|]).
    injection Hrun as <- <-. eexists. simpl.
    by rewrite <- !(assoc_L (++)).
Qed.

(** The log only grows. *)
Lemma initializeExecutor_extends sandbox w w' r :
  initializeExecutor sandbox w = (w', r) → ∃ l, calls w' = calls w ++ l.
Proof.
  assert (Hcreate : ∀ v, executor v = None →
    initializeExecutor sandbox v = (w', r) → ∃ l, calls w' = calls v ++ l).
  { intros v Hv. rewrite initializeExecutor_create by done; simpl.
    repeat (destruct (backend _ _)); intros [= <- <-]; simpl;
      rewrite <- ?(assoc_L (++)); eauto. }
  destruct (executor w) as [e|] eqn:He; [|by apply Hcreate].
  destruct (decide (class e = required_class sandbox)) as [Hk|Hk].
  - rewrite (initializeExecutor_reuse _ _ e) by done; simpl.
    destruct (backend _ _); intros [= <- <-]; simpl; eauto.
  - rewrite (initializeExecutor_replace _ _ e) by done.
    destruct (backend _ _).
    + intros [= <- <-]; simpl; eauto.
    + intros [l ->]%Hcreate; [|done]. simpl.
      rewrite <- (assoc_L (++)). eauto.
Qed.

Lemma initializeAll_extends sandboxes w w' r :
  initializeAll sandboxes w = (w', r) → ∃ l, calls w' = calls w ++ l.
Proof.
  revert w. induction sandboxes as [|sandbox rest IH]; intros w; simpl.
  - intros [= <- <-]. exists []. by rewrite app_nil_r.
  - unfold mbind, M_bind.
    destruct (initializeExecutor sandbox w) as [w1 [x|r1]] eqn:Hrun.
    + intros [= <- <-]. by eapply initializeExecutor_extends.
    + intros [l ->]%IH.
      destruct (initializeExecutor_extends _ _ _ _ Hrun) as [k ->].
      rewrite <- (assoc_L (++)). eauto.
Qed.

Lemma calls_since_trans w w1 w2 l k :
  calls w1 = calls w ++ l →
  calls w2 = calls w1 ++ k →
  calls_since w w2 = calls_since w w1 ++ calls_since w1 w2.
Proof.
  intros H1 H2. rewrite (calls_since_app w w1 l), (calls_since_app w1 w2 k)
    by done.
  apply calls_since_app. by rewrite H2, H1, (assoc_L (++)).
Qed.

(** Along a run of returning calls that starts with executor [e] active,
    there are as many disposes, and as many constructions, as changes of
    the required class. *)
Lemma initializeAll_disposes sandboxes w w' e :
  executor w = Some e →
  initializeAll sandboxes w = (w', inr ()) →
  length (filter is_dispose (calls_since w w')) = class_changes (class e) sandboxes
  ∧ length (filter is_new (calls_since w w')) = class_changes (class e) sandboxes.
Proof.
  revert w e. induction sandboxes as [|sandbox rest IH]; intros w e He; simpl.
  - intros [= <-]. unfold calls_since. by rewrite drop_all.
  - unfold mbind, M_bind.
    destruct (initializeExecutor sandbox w) as [w1 [x|r]] eqn:Hrun; [done|].
    intros Hrest.
    destruct (initializeExecutor_returned_calls _ _ _ _ _ He Hrun)
      as (e' & He' & Hk & Hcalls).
    destruct (IH _ _ He' Hrest) as [IHd IHn]. rewrite Hk in IHd, IHn.
    destruct (initializeAll_extends _ _ _ _ Hrest) as [k Hk'].
    rewrite (calls_since_trans w w1 w' _ k Hcalls Hk').
    rewrite !filter_app, !length_app, IHd, IHn.
    rewrite (calls_since_app w w1 _ Hcalls).
    by case_decide.
Qed.

(** In a reachable world the active executor was constructed by the
    manager, and its identity is below the allocator. *)
Lemma step_constructed w w' :
  step w w' →
  (∀ e, executor w = Some e → New e ∈ calls w ∧ ref e < fresh w) →
  ∀ e, executor w' = Some e → New e ∈ calls w' ∧ ref e < fresh w'.
Proof.
  assert (Hcreate : ∀ sandbox v v' r, executor v = None →
    initializeExecutor sandbox v = (v', r) →
    ∀ e, executor v' = Some e → New e ∈ calls v' ∧ ref e < fresh v').
  { intros sandbox v v' r Hv. rewrite initializeExecutor_create by done.
    simpl. repeat (destruct (backend _ _)); intros [= <- <-] e; simpl;
      try done; intros [= <-]; simpl; split; try lia;
      rewrite !elem_of_app, !list_elem_of_singleton; auto. }
  intros [sandbox v v' r Hrun|v v' r Hrun|sandbox v v' r Hrun|v v' r Hrun] Hinv.
  - destruct (executor v) as [e0|] eqn:He0; [|by eapply Hcreate].
    destruct (Hinv e0 eq_refl) as [Hin Hlt].
    destruct (decide (class e0 = required_class sandbox)) as [Hk|Hk].
    + rewrite (initializeExecutor_reuse _ _ e0) in Hrun by done.
      simpl in Hrun.
      destruct (backend _ _); injection Hrun as <- <-; simpl;
        intros e [= <-]; rewrite elem_of_app; auto.
    + rewrite (initializeExecutor_replace _ _ e0) in Hrun by done.
      destruct (backend (calls v) (Dispose e0)).
      * injection Hrun as <- <-; simpl.
        intros e [= <-]; rewrite elem_of_app; auto.
      * by apply (Hcreate sandbox
             (mkWorld None (fresh v) (calls v ++ [Dispose e0])) v' r).
  - revert Hrun. run. destruct (executor v) as [e0|] eqn:He0; simpl.
    + branch; intros [= <- <-]; simpl; intros e He;
        destruct (Hinv e) as [Hin Hlt]; [congruence| |congruence|];
        rewrite elem_of_app; auto.
    + intros [= <- <-]. by rewrite He0.
  - revert Hrun. run. destruct (executor v) as [e0|] eqn:He0; simpl.
    + branch; intros [= <- <-]; simpl; intros e He;
        destruct (Hinv e) as [Hin Hlt]; [congruence| |congruence|];
        rewrite elem_of_app; auto.
    + intros [= <- <-]. by rewrite He0.
  - revert Hrun. run. destruct (executor v) as [e0|] eqn:He0; simpl.
    + branch; intros [= <- <-]; simpl; [|done]. intros e He.
        destruct (Hinv e) as [Hin Hlt]; [congruence|].
        rewrite elem_of_app; auto.
    + intros [= <- <-]. by rewrite He0.
Qed.

Lemma reachable_constructed w e :
  reachable w → executor w = Some e → New e ∈ calls w ∧ ref e < fresh w.
Proof.
  unfold reachable. intros Hreach. revert e.
  eapply (rtc_ind_r
    (λ v, ∀ e, executor v = Some e → New e ∈ calls v ∧ ref e < fresh v));
    [| |exact Hreach].
  - done.
  - intros w1 w2 _ Hstep IH. by apply (step_constructed w1 w2).
Qed.


(** C4, as the code has it: when the dispose triggered by a change of
    class throws, the failure reaches the caller, nothing is constructed,
    and the manager still holds the executor whose dispose failed. *)
Theorem initializeExecutor_dispose_throws sandbox w e message :
  executor w = Some e →
  class e ≠ required_class sandbox →
  backend (calls w) (Dispose e) = Some message →
  ∃ w', initializeExecutor sandbox w = (w', inl (BackendError message))
        ∧ executor w' = Some e
        ∧ fresh w' = fresh w
        ∧ calls_since w w' = [Dispose e].
Proof.
  intros He Hk Hd.
  rewrite (initializeExecutor_replace _ _ e), Hd by done.
  eexists; split; [done|]. simpl.
  by rewrite (calls_since_app _ _ [Dispose e]).
Qed.

(** C5: [isServer()] answers true exactly when the active executor is a
    [ServerExecutor], and false otherwise; with no executor it answers
    false.  It changes nothing. *)
Theorem isServer_iff_ServerExecutor w :
  (isServer w = (w, inr true)
     ↔ ∃ e, executor w = Some e ∧ class e = ServerExecutor)
  ∧ (isServer w = (w, inr false)
     ↔ ¬ ∃ e, executor w = Some e ∧ class e = ServerExecutor)
  ∧ isServer (mkWorld None (fresh w) (calls w))
      = (mkWorld None (fresh w) (calls w), inr false).
Proof.
  run. destruct (executor w) as [e|]; [branch|]; naive_solver.
Qed.

(** C6: when [closeExecutor()] returns, the executor that was active has
    been disposed, the field is cleared, and [getExecutor()] then returns
    [undefined]. *)
Theorem closeExecutor_clears w w' :
  closeExecutor w = (w', inr ()) →
  ∃ e, executor w = Some e
       ∧ backend (calls w) (Dispose e) = None
       ∧ calls_since w w' = [Dispose e]
       ∧ executor w' = None
       ∧ getExecutor w' = (w', inr None).
Proof.
  run. destruct (executor w) as [e|]; simpl; [|done].
  branch; [done|]. intros [= <-]. exists e. simpl.
  by rewrite (calls_since_app _ _ [Dispose e]).
Qed.

(** C8: with no active executor, [setupExecutor()], [updateFiles(S)] and
    [closeExecutor()] each fail with the [TypeError] of reading a property
    of [undefined]; no call reaches the backend and the manager is
    unchanged. *)
Theorem no_executor_TypeError sandbox w :
  executor w = None →
  setupExecutor w = (w, inl (TypeError "setup"))
  ∧ updateFiles sandbox w = (w, inl (TypeError "updateFiles"))
  ∧ closeExecutor w = (w, inl (TypeError "dispose")).
Proof. run. by intros ->. Qed.

Lemma updateFiles_forwards sandbox w e :
  executor w = Some e →
  ∃ r, updateFiles sandbox w =
         (mkWorld (Some e) (fresh w)
                  (calls w ++ [UpdateFiles e (getModulesToSend sandbox)]), r).
Proof.
  destruct w as [ex fr cs]; simpl. intros ->. run. branch; eauto.
Qed.

(** C9: two calls of [updateFiles] with the same sandbox forward the same
    snapshot twice to the active executor, which stays the active
    executor; nothing is disposed or constructed. *)
Theorem updateFiles_twice sandbox w e w1 r1 w2 r2 :
  executor w = Some e →
  updateFiles sandbox w = (w1, r1) →
  updateFiles sandbox w1 = (w2, r2) →
  calls_since w w1 = [UpdateFiles e (getModulesToSend sandbox)]
  ∧ calls_since w1 w2 = [UpdateFiles e (getModulesToSend sandbox)]
  ∧ executor w1 = Some e
  ∧ executor w2 = Some e
  ∧ fresh w2 = fresh w.
Proof.
  intros He H1 H2.
  destruct (updateFiles_forwards sandbox w e He) as [r Hr].
  rewrite Hr in H1. injection H1 as <- <-.
  edestruct (updateFiles_forwards sandbox) as [r' Hr'];
    [|rewrite Hr' in H2]; [done|]. injection H2 as <- <-. simpl.
  by rewrite !(calls_since_app _ _ [UpdateFiles e (getModulesToSend sandbox)]).
Qed.

End Properties.

(** ** The theorems at sample inputs *)

(** C7 as worded does not hold: the entry under [/a.js] has a [path]
    property, so the snapshot is not the one of the claim, whatever stands
    for the manifest entry, whether [undefined] properties count or not. *)
Lemma single_module_snapshot_counterexample :
  let claimed manifest : gmap string (gmap string JsVal) :=
    {[ "/a.js" := {[ "code" := JsString "x";
                     "savedCode" := JsUndefined;
                     "isBinary" := JsUndefined ]};
       "/package.json" := manifest ]} in
  let snapshot := @getModulesToSend quiet browser_sandbox in
  (¬ ∃ manifest, File.props <$> snapshot = claimed manifest)
  ∧ (¬ ∃ manifest,
         File.defined_props <$> (File.props <$> snapshot)
         = File.defined_props <$> claimed manifest).
Proof.
  split; intros [manifest Heq];
    apply (f_equal (λ m, m !! "/a.js" ≫= (.!! "path"))) in Heq;
    by vm_compute in Heq.
Qed.

Lemma getModulesToSend_single_module_witness :
  modules browser_sandbox = [a_js]
  ∧ @getModulesToSend quiet browser_sandbox =
      {[ "/a.js" := File.mk (Val "x") Undefined "/a.js" Undefined;
         "/package.json" :=
           File.mk (Val "{ name: new }") Null "/package.json" (Val false) ]}.
Proof.
  split; [reflexivity|].
  exact (@getModulesToSend_single_module quiet browser_sandbox eq_refl).
Defined.

Lemma getModulesToSend_path_is_key_witness :
  @getModulesToSend quiet browser_sandbox !! "/package.json"
    = Some (File.mk (Val "{ name: new }") Null "/package.json" (Val false))
  ∧ File.path (File.mk (Val "{ name: new }") Null "/package.json" (Val false))
    = "/package.json".
Proof.
  assert (Hlook : @getModulesToSend quiet browser_sandbox !! "/package.json"
    = Some (File.mk (Val "{ name: new }") Null "/package.json" (Val false)))
    by (vm_compute; reflexivity).
  split; [exact Hlook|].
  exact (@getModulesToSend_path_is_key quiet browser_sandbox _ _ Hlook).
Defined.







(** C4 as worded does not hold: in [server_world], asking for a browser
    executor while the backend fails every dispose throws that failure,
    and the manager still holds the server executor. *)
Lemma dispose_failure_counterexample :
  @initializeExecutor failing server_sandbox no_executor
    = (server_world, inr (Some server_executor))
  ∧ class server_executor ≠ @required_class failing browser_sandbox
  ∧ @backend failing (calls server_world) (Dispose server_executor)
    = Some "dispose failed"
  ∧ (@initializeExecutor failing browser_sandbox server_world).2
    = inl (BackendError "dispose failed")
  ∧ executor (@initializeExecutor failing browser_sandbox server_world).1
    = Some server_executor
  ∧ executor (@initializeExecutor failing browser_sandbox server_world).1
    ≠ None.
Proof. by vm_compute. Qed.

Lemma initializeExecutor_dispose_throws_witness :
  executor server_world = Some server_executor
  ∧ class server_executor ≠ @required_class failing browser_sandbox
  ∧ @backend failing (calls server_world) (Dispose server_executor)
    = Some "dispose failed"
  ∧ ∃ w', @initializeExecutor failing browser_sandbox server_world
          = (w', inl (BackendError "dispose failed"))
          ∧ executor w' = Some server_executor
          ∧ fresh w' = fresh server_world
          ∧ calls_since server_world w' = [Dispose server_executor].
Proof.
  assert (Hk : class server_executor ≠ @required_class failing browser_sandbox)
    by (by vm_compute).
  repeat split; [exact Hk|].
  exact (@initializeExecutor_dispose_throws failing browser_sandbox
           server_world server_executor "dispose failed" eq_refl Hk eq_refl).
Defined.

Lemma closeExecutor_clears_witness :
  @closeExecutor quiet server_world = (closed_world, inr ())
  ∧ ∃ e, executor server_world = Some e
         ∧ @backend quiet (calls server_world) (Dispose e) = None
         ∧ calls_since server_world closed_world = [Dispose e]
         ∧ executor closed_world = None
         ∧ getExecutor closed_world = (closed_world, inr None).
Proof.
  assert (Hrun : @closeExecutor quiet server_world = (closed_world, inr ()))
    by (vm_compute; reflexivity).
  split; [exact Hrun|].
  exact (@closeExecutor_clears quiet server_world closed_world Hrun).
Defined.

Lemma no_executor_TypeError_witness :
  executor no_executor = None
  ∧ @setupExecutor quiet no_executor = (no_executor, inl (TypeError "setup"))
  ∧ @updateFiles quiet browser_sandbox no_executor
    = (no_executor, inl (TypeError "updateFiles"))
  ∧ @closeExecutor quiet no_executor = (no_executor, inl (TypeError "dispose")).
Proof.
  split; [reflexivity|].
  exact (@no_executor_TypeError quiet browser_sandbox no_executor eq_refl).
Defined.

Lemma updateFiles_twice_witness :
  executor server_world = Some server_executor
  ∧ @updateFiles quiet browser_sandbox server_world = (updated_once, inr ())
  ∧ @updateFiles quiet browser_sandbox updated_once = (updated_twice, inr ())
  ∧ calls_since server_world updated_once
    = [UpdateFiles server_executor (@getModulesToSend quiet browser_sandbox)]
  ∧ calls_since updated_once updated_twice
    = [UpdateFiles server_executor (@getModulesToSend quiet browser_sandbox)]
  ∧ executor updated_once = Some server_executor
  ∧ executor updated_twice = Some server_executor
  ∧ fresh updated_twice = fresh server_world.
Proof.
  assert (H1 : @updateFiles quiet browser_sandbox server_world
    = (updated_once, inr ())) by (vm_compute; reflexivity).
  assert (H2 : @updateFiles quiet browser_sandbox updated_once
    = (updated_twice, inr ())) by (vm_compute; reflexivity).
  split; [reflexivity|]. split; [exact H1|]. split; [exact H2|].
  exact (@updateFiles_twice quiet browser_sandbox server_world server_executor
           _ _ _ _ eq_refl H1 H2).
Defined.

(** ** The snapshot on small sandboxes *)

Example snapshot_last_write_wins :
  @getModulesToSend quiet
    {| id := "s"; template := "node";
       modules := [Mod.mk (Val "/a.js") (Val "old") Null (Val false);
                   Mod.mk (Val "/b.js") (Val "b") Null (Val false);
                   Mod.mk (Val "/a.js") (Val "new") (Val "saved") (Val false)] |}
  = {[ "/a.js" := File.mk (Val "new") (Val "saved") "/a.js" (Val false);
       "/b.js" := File.mk (Val "b") Null "/b.js" (Val false);
       "/package.json" :=
         File.mk (Val "{ name: s }") Null "/package.json" (Val false) ]}.
Proof. by vm_compute. Qed.

Example snapshot_skips_modules_without_path :
  @getModulesToSend quiet
    {| id := "s"; template := "node";
       modules := [Mod.mk Undefined (Val "u") Null (Val false);
                   Mod.mk Null (Val "n") Null (Val false);
                   Mod.mk (Val "") (Val "e") Null (Val false)] |}
  = {[ "/package.json" :=
         File.mk (Val "{ name: s }") Null "/package.json" (Val false) ]}.
Proof. by vm_compute. Qed.

Example snapshot_keeps_manifest_module :
  @getModulesToSend quiet
    {| id := "s"; template := "node";
       modules := [Mod.mk (Val "/package.json") (Val "{}") (Val "{}") Undefined] |}
  = {[ "/package.json" :=
         File.mk (Val "{}") (Val "{}") "/package.json" Undefined ]}.
Proof. by vm_compute. Qed.

(** A server sandbox, then a browser sandbox, then a server sandbox
    again: two changes of class, so two disposes and two constructions
    after the first. *)
Example three_sandboxes_two_disposes :
  ∃ w, @initializeAll quiet [browser_sandbox; server_sandbox; server_sandbox]
         server_world = (w, inr ())
       ∧ length (filter is_dispose (calls_since server_world w)) = 2
       ∧ length (filter is_new (calls_since server_world w)) = 2
       ∧ (isServer w).2 = inr true.
Proof. eexists. by vm_compute. Qed.

(** The server sandbox, then the browser sandbox: the server executor is
    disposed, a browser executor is constructed, and [isServer()] is
    false afterwards. *)
Example server_then_browser :
  @initializeAll quiet [server_sandbox; browser_sandbox] no_executor
    = (browser_world, inr ())
  ∧ calls browser_world
    = [New server_executor;
       Initialize server_executor (@init_options quiet server_sandbox);
       Dispose server_executor;
       New browser_executor;
       Initialize browser_executor (@init_options quiet browser_sandbox)]
  ∧ isServer browser_world = (browser_world, inr false).
Proof. by vm_compute. Qed.

(** * Further properties of the manager *)

Section Lifecycle.

Context `{Environment}.

(** The executors that exist after a log of calls: a construction that
    returned adds its object, a dispose that resolved removes it.
    [history] is the log before [rest]. *)
Fixpoint live_from (history rest : list Call) (live : list Executor) : list Executor :=
  match rest with
  | [] => live
  | c :: rest' =>
      let live' :=
        match c, backend history c with
        | New e, None => live ++ [e]
        | Dispose e, None => filter (λ e', e' ≠ e) live
        | _, _ => live
        end in
      live_from (history ++ [c]) rest' live'
  end.

Definition live_executors (log : list Call) : list Executor :=
  live_from [] log [].

(** The host [initializeExecutor] passes, said in words: the staging host
    when [STAGING_API] is a non-empty string. *)
Definition staging : Prop := ∃ s, STAGING_API = Val s ∧ s ≠ "".

Ltac unfold_methods :=
  unfold setupExecutor, updateFiles, closeExecutor, isServer, getExecutor,
    member, throw, get_executor, set_executor, invoke, mbind, M_bind,
    mret, M_ret, instanceof in *;
  simpl in *.

(** X1: when [initializeExecutor] throws, it throws what the backend
    threw at the last call of the log, never a [TypeError], and the
    manager is in one of three states: a dispose threw and the old
    executor is still active; the constructor threw and no executor is
    active; [initialize] threw and the executor of the required class is
    active all the same. *)
Theorem initializeExecutor_failure sandbox w w' x :
  initializeExecutor sandbox w = (w', inl x) →
  ∃ history c message,
    calls w' = history ++ [c]
    ∧ backend history c = Some message
    ∧ x = BackendError message
    ∧ ((∃ e, c = Dispose e ∧ class e ≠ required_class sandbox
             ∧ executor w = Some e ∧ executor w' = Some e)
       ∨ (∃ e, c = New e ∧ class e = required_class sandbox
               ∧ executor w' = None)
       ∨ (∃ e, c = Initialize e (init_options sandbox)
               ∧ class e = required_class sandbox
               ∧ executor w' = Some e)).
Proof.
  assert (Hcreate : ∀ v, executor v = None →
    initializeExecutor sandbox v = (w', inl x) →
    ∃ history c message,
      calls w' = history ++ [c]
      ∧ backend history c = Some message
      ∧ x = BackendError message
      ∧ ((∃ e, c = New e ∧ class e = required_class sandbox
               ∧ executor w' = None)
         ∨ (∃ e, c = Initialize e (init_options sandbox)
                 ∧ class e = required_class sandbox
                 ∧ executor w' = Some e))).
  { intros v Hv. rewrite initializeExecutor_create by done. simpl.
    destruct (backend (calls v) _) as [m|] eqn:Hnew.
    - intros [= <- <-]. do 3 eexists. repeat split; [done|]. left. eauto.
    - destruct (backend (calls v ++ _) _) as [m|] eqn:Hinit; [|done].
      intros [= <- <-]. do 3 eexists. repeat split; [done|]. right. eauto. }
  destruct (executor w) as [e|] eqn:He.
  - destruct (decide (class e = required_class sandbox)) as [Hk|Hk].
    + rewrite (initializeExecutor_reuse _ _ e) by done. simpl.
      destruct (backend _ _) as [m|] eqn:Hinit; [|done].
      intros [= <- <-]. do 3 eexists. repeat split; [done|].
      right; right. eauto.
    + rewrite (initializeExecutor_replace _ _ e) by done.
      destruct (backend _ _) as [m|] eqn:Hd.
      * intros [= <- <-]. do 3 eexists. repeat split; [done|]. left. eauto.
      * intros Hrun. apply Hcreate in Hrun; [|done].
        destruct Hrun as (h & c & m & ? & ? & ? & Hcase).
        exists h, c, m. repeat split; try done. right. done.
  - intros Hrun. apply Hcreate in Hrun; [|done].
    destruct Hrun as (h & c & m & ? & ? & ? & Hcase).
    exists h, c, m. repeat split; try done. right. done.
Qed.

(** X2: after a returning [initializeExecutor], [isServer()] answers the
    [isServer] flag of the sandbox's template. *)
Theorem isServer_after_initializeExecutor sandbox w w' r :
  initializeExecutor sandbox w = (w', inr r) →
  isServer w' = (w', inr (Template.isServer (getDefinition (template sandbox)))).
Proof.
  intros Hrun.
  destruct (initializeExecutor_returned _ _ _ _ Hrun) as (e & _ & He & Hk).
  unfold_methods. rewrite He. do 2 f_equal.
  unfold required_class in Hk. rewrite Hk.
  by destruct (Template.isServer _).
Qed.

(** X3: [closeExecutor] throws in two ways only: with no executor, the
    [TypeError], and nothing changed; or what the backend's dispose
    threw, and then the executor is still active. *)
Theorem closeExecutor_failure w w' x :
  closeExecutor w = (w', inl x) →
  (executor w = None ∧ w' = w ∧ x = TypeError "dispose")
  ∨ (∃ e message,
       executor w = Some e
       ∧ backend (calls w) (Dispose e) = Some message
       ∧ x = BackendError message
       ∧ executor w' = Some e
       ∧ calls_since w w' = [Dispose e]).
Proof.
  unfold_methods. destruct (executor w) as [e|] eqn:He; simpl.
  - destruct (backend _ _) as [m|] eqn:Hd; [|done].
    intros [= <- <-]. right. exists e, m. simpl.
    by rewrite (calls_since_app _ _ [Dispose e]).
  - intros [= <- <-]. by left.
Qed.

(** X4: [setupExecutor] and [updateFiles] never dispose, construct or
    replace an executor: the field and the allocator are as before, and
    the log grew by at most one call, made to the active executor. *)
Theorem delegation_keeps_executor sandbox w w' r :
  setupExecutor w = (w', r) ∨ updateFiles sandbox w = (w', r) →
  executor w' = executor w
  ∧ fresh w' = fresh w
  ∧ (calls_since w w' = [] ∧ executor w = None
     ∨ ∃ e, executor w = Some e
            ∧ (calls_since w w' = [Setup e]
               ∨ calls_since w w' = [UpdateFiles e (getModulesToSend sandbox)])).
Proof.
  unfold_methods. destruct (executor w) as [e|] eqn:He; simpl.
  - intros [Hrun|Hrun]; revert Hrun;
      destruct (backend _ _); intros [= <- <-]; simpl;
      (split; [done|]); (split; [done|]); right; exists e; (split; [done|]).
    1,2: left; by apply calls_since_app.
    1,2: right; by apply calls_since_app.
  - intros [[= <- <-]|[= <- <-]]; rewrite He;
      (split; [done|]); (split; [done|]); left;
      (split; [|done]); apply calls_since_app; by rewrite app_nil_r.
Qed.

(** X5: once [closeExecutor] returned, the manager is as before any
    initialization: [isServer()] is false, and [setupExecutor],
    [updateFiles] and a second [closeExecutor] throw the [TypeError]
    without reaching the backend. *)
Theorem after_closeExecutor sandbox w w' :
  closeExecutor w = (w', inr ()) →
  isServer w' = (w', inr false)
  ∧ setupExecutor w' = (w', inl (TypeError "setup"))
  ∧ updateFiles sandbox w' = (w', inl (TypeError "updateFiles"))
  ∧ closeExecutor w' = (w', inl (TypeError "dispose")).
Proof.
  unfold_methods. destruct (executor w) as [e|]; simpl; [|done].
  destruct (backend _ _); [done|]. by intros [= <-].
Qed.

(** X6: in a world the manager can reach, an executor that was closed is
    not used again: the next returning [initializeExecutor] constructs an
    object that differs from the closed one, also when the class is the
    same, and disposes nothing. *)
Theorem initializeExecutor_after_close sandbox w w1 w2 r :
  reachable w →
  closeExecutor w = (w1, inr ()) →
  initializeExecutor sandbox w1 = (w2, inr r) →
  ∃ closed created,
    executor w = Some closed
    ∧ r = Some created
    ∧ executor w2 = Some created
    ∧ created ≠ closed
    ∧ calls_since w1 w2 = [New created; Initialize created (init_options sandbox)].
Proof.
  intros Hreach Hclose Hrun.
  assert (∃ closed, executor w = Some closed
    ∧ w1 = mkWorld None (fresh w) (calls w ++ [Dispose closed]))
    as (closed & Hclosed & ->).
  { revert Hclose. unfold_methods.
    destruct (executor w) as [e|]; simpl; [|done].
    destruct (backend _ _); [done|]. intros [= <-]. eauto. }
  destruct (reachable_constructed _ _ Hreach Hclosed) as [_ Hlt].
  rewrite initializeExecutor_create in Hrun by done. simpl in Hrun.
  repeat (destruct (backend _ _); [done|]).
  injection Hrun as <- <-. do 2 eexists. repeat split; try done.
  - intros <-. simpl in Hlt. lia.
  - apply calls_since_app. simpl. by rewrite <- (assoc_L (++)).
Qed.

Lemma live_from_app history l1 l2 live :
  live_from history (l1 ++ l2) live
  = live_from (history ++ l1) l2 (live_from history l1 live).
Proof.
  revert history live. induction l1 as [|c l1 IH]; intros history live; simpl.
  - by rewrite app_nil_r.
  - by rewrite IH, <- (assoc_L (++)).
Qed.

Lemma live_executors_app log l :
  live_executors (log ++ l) = live_from log l (live_executors log).
Proof. unfold live_executors. by rewrite live_from_app. Qed.

(** One method call keeps the live executors and the field in step. *)
Lemma step_live w w' :
  step w w' →
  live_executors (calls w) = option_list (executor w) →
  live_executors (calls w') = option_list (executor w').
Proof.
  assert (Hcreate : ∀ sandbox v v' r, executor v = None →
    live_executors (calls v) = [] →
    initializeExecutor sandbox v = (v', r) →
    live_executors (calls v') = option_list (executor v')).
  { intros sandbox v v' r Hv Hlive.
    rewrite initializeExecutor_create by done. simpl.
    destruct (backend (calls v) _) eqn:Hnew.
    - intros [= <- <-]. simpl.
      by rewrite live_executors_app, Hlive; simpl; rewrite Hnew.
    - destruct (backend (calls v ++ _) _) eqn:Hinit; intros [= <- <-]; simpl;
        rewrite <- (assoc_L (++)), live_executors_app, Hlive; simpl;
        by rewrite Hnew. }
  intros [sandbox v v' r Hrun|v v' r Hrun|sandbox v v' r Hrun|v v' r Hrun] Hlive.
  - destruct (executor v) as [e|] eqn:He; [|by eapply Hcreate].
    simpl in Hlive.
    destruct (decide (class e = required_class sandbox)) as [Hk|Hk].
    + rewrite (initializeExecutor_reuse _ _ e) in Hrun by done.
      simpl in Hrun.
      destruct (backend _ _); injection Hrun as <- <-; simpl;
        by rewrite live_executors_app, Hlive.
    + rewrite (initializeExecutor_replace _ _ e) in Hrun by done.
      destruct (backend (calls v) (Dispose e)) eqn:Hd.
      * injection Hrun as <- <-; simpl.
        by rewrite live_executors_app, Hlive; simpl; rewrite Hd.
      * apply (Hcreate sandbox
          (mkWorld None (fresh v) (calls v ++ [Dispose e])) v' r);
          [done| |done].
        simpl. rewrite live_executors_app, Hlive; simpl. rewrite Hd.
        by rewrite filter_cons, decide_False by (intros Hne; by apply Hne).
  - destruct v as [[e|] fr cs]; simpl in Hlive; revert Hrun; unfold_methods.
    + destruct (backend _ _); intros [= <- <-]; simpl;
        by rewrite live_executors_app, Hlive.
    + by intros [= <- <-].
  - destruct v as [[e|] fr cs]; simpl in Hlive; revert Hrun; unfold_methods.
    + destruct (backend _ _); intros [= <- <-]; simpl;
        by rewrite live_executors_app, Hlive.
    + by intros [= <- <-].
  - destruct v as [[e|] fr cs]; simpl in Hlive; revert Hrun; unfold_methods.
    + destruct (backend _ _) eqn:Hd; intros [= <- <-]; simpl;
        rewrite live_executors_app, Hlive; simpl; rewrite Hd; [done|].
      by rewrite filter_cons, decide_False by (intros Hne; by apply Hne).
    + by intros [= <- <-].
Qed.

(** X7: when every method call is awaited before the next one is made,
    then whatever the calls were and whatever the backend threw on the
    way, the executors that were constructed and not disposed are the
    active one, or none when none is active: at most one executor is
    alive, and none is leaked. *)
Theorem reachable_one_live w :
  reachable w →
  live_executors (calls w) = option_list (executor w)
  ∧ (length (live_executors (calls w)) ≤ 1)%nat.
Proof.
  intros Hreach.
  assert (live_executors (calls w) = option_list (executor w)) as ->.
  { unfold reachable in Hreach.
    eapply (rtc_ind_r
      (λ v, live_executors (calls v) = option_list (executor v)));
      [| |exact Hreach]; [done|].
    intros w1 w2 _ Hstep IH. by apply (step_live w1 w2). }
  split; [done|]. destruct (executor w); simpl; lia.
Qed.

(** X8: the last call of a returning [initializeExecutor] initializes the
    returned executor with the sandbox's id, the sandbox's snapshot, and
    the staging host when [STAGING_API] is a non-empty string, the
    production host otherwise (also when it is the empty string). *)
Theorem initializeExecutor_options sandbox w w' e :
  initializeExecutor sandbox w = (w', inr (Some e)) →
  ∃ host,
    last (calls w')
      = Some (Initialize e {| sandboxId := id sandbox;
                              files := getModulesToSend sandbox;
                              host := host |})
    ∧ (staging ∧ host = "https://codesandbox.stream"
       ∨ ¬ staging ∧ host = "https://codesandbox.io").
Proof.
  intros Hrun. exists sseHost. split.
  - assert (∃ l, calls w' = l ++ [Initialize e (init_options sandbox)])
      as [l ->]; [|by rewrite last_snoc].
    assert (Hcreate : ∀ v, executor v = None →
      initializeExecutor sandbox v = (w', inr (Some e)) →
      ∃ l, calls w' = l ++ [Initialize e (init_options sandbox)]).
    { intros v Hv. rewrite initializeExecutor_create by done. simpl.
      repeat (destruct (backend _ _); [done|]).
      intros [= <- <-]. simpl. eauto. }
    destruct (executor w) as [e0|] eqn:He; [|by apply (Hcreate w)].
    destruct (decide (class e0 = required_class sandbox)) as [Hk|Hk].
    + rewrite (initializeExecutor_reuse _ _ e0) in Hrun by done.
      simpl in Hrun. destruct (backend _ _); [done|].
      injection Hrun as <- <-. simpl. eauto.
    + rewrite (initializeExecutor_replace _ _ e0) in Hrun by done.
      destruct (backend _ _); [done|].
      by apply (Hcreate (mkWorld None (fresh w) (calls w ++ [Dispose e0]))).
  - unfold sseHost, staging.
    destruct (truthy STAGING_API) as [s|] eqn:Hs.
    + left. split; [|done]. exists s. by apply truthy_Some.
    + right. split; [|done]. intros [s Hs'%truthy_Some]. congruence.
Qed.

End Lifecycle.

(** * Further properties of the snapshot *)

Lemma length_remove_dups_le (l : list string) :
  (length (remove_dups l) ≤ length l)%nat.
Proof.
  induction l as [|x l IH]; simpl; [done|].
  case_decide; simpl; lia.
Qed.

Lemma omap_paths_cons (m : Mod.t) (ms : list Mod.t) :
  omap (λ m, truthy (Mod.path m)) (m :: ms)
  = match truthy (Mod.path m) with
    | Some path => path :: omap (λ m, truthy (Mod.path m)) ms
    | None => omap (λ m, truthy (Mod.path m)) ms
    end.
Proof. done. Qed.

Lemma length_module_paths sandbox :
  (length (module_paths sandbox) ≤ length (modules sandbox))%nat.
Proof.
  unfold module_paths. generalize (modules sandbox). intros ms.
  induction ms as [|m ms IH]; [done|].
  rewrite omap_paths_cons.
  destruct (truthy (Mod.path m)); simpl; lia.
Qed.

(** With distinct module paths, at most one module is written under a
    path. *)
Lemma written_at_once (ms : list Mod.t) path :
  NoDup (omap (λ m, truthy (Mod.path m)) ms) →
  (length (filter (written_at path) ms) ≤ 1)%nat.
Proof.
  induction ms as [|m ms IH]; [intros _; simpl; lia|].
  rewrite omap_paths_cons, filter_cons.
  destruct (truthy (Mod.path m)) as [q|] eqn:Hq.
  - intros [Hnotin Hnodup]%NoDup_cons.
    case_decide as Hw; [|by apply IH]. simpl.
    apply truthy_written_at in Hw. assert (q = path) as -> by congruence.
    destruct (filter (written_at path) ms) as [|m' l] eqn:Hf; [done|].
    exfalso. apply Hnotin. apply list_elem_of_omap. exists m'.
    assert (m' ∈ filter (written_at path) ms) as [Hw' Hin]%list_elem_of_filter
      by (rewrite Hf; left).
    split; [done|]. by apply truthy_written_at.
  - intros Hnodup. rewrite decide_False; [by apply IH|].
    intros Hw%truthy_written_at. congruence.
Qed.

Section SnapshotKeys.

Context `{Environment}.

(** X9: the keys of a snapshot are the non-empty module paths and
    [/package.json]; so the manifest is always there, the empty path
    never, and the snapshot has at least one entry and at most one more
    than the sandbox has modules. *)
Theorem getModulesToSend_keys sandbox :
  dom (getModulesToSend sandbox)
    = list_to_set (module_paths sandbox) ∪ {[ "/package.json" ]}
  ∧ is_Some (getModulesToSend sandbox !! "/package.json")
  ∧ getModulesToSend sandbox !! "" = None
  ∧ (1 ≤ size (getModulesToSend sandbox) ≤ S (length (modules sandbox)))%nat.
Proof.
  assert (Hdom : dom (getModulesToSend sandbox)
    = list_to_set (module_paths sandbox) ∪ {[ "/package.json" ]}).
  { rewrite getModulesToSend_dom, list_to_set_app_L. set_solver. }
  split; [done|]. split; [|split].
  - apply (elem_of_dom (D := gset string)). rewrite Hdom. set_solver.
  - apply (not_elem_of_dom (D := gset string)). rewrite Hdom.
    intros [Hin| Hin]%elem_of_union; [|set_solver].
    apply elem_of_list_to_set in Hin. unfold module_paths in Hin.
    apply list_elem_of_omap in Hin as (m & _ & Hm).
    apply truthy_Some in Hm as [_ Hne]. done.
  - split.
    + assert (size (getModulesToSend sandbox) ≠ 0); [|lia].
      apply map_size_non_empty_iff. intros Hempty.
      apply (f_equal dom) in Hempty. rewrite Hdom, dom_empty_L in Hempty.
      set_solver.
    + rewrite <- size_dom, getModulesToSend_dom, size_list_to_set_remove_dups.
      etrans; [apply length_remove_dups_le|].
      rewrite length_app. simpl. pose proof (length_module_paths sandbox). lia.
Qed.

(** X10: when no two modules share a path, the order of the modules does
    not matter: two sandboxes with the same modules in another order, and
    the same generated manifest, have the same snapshot. *)
Theorem getModulesToSend_permutation s1 s2 :
  modules s1 ≡ₚ modules s2 →
  NoDup (module_paths s1) →
  generateFileFromSandbox s1 = generateFileFromSandbox s2 →
  getModulesToSend s1 = getModulesToSend s2.
Proof.
  intros Hperm Hnodup Hgen. apply map_eq. intros path.
  rewrite !getModulesToSend_lookup. unfold snapshot_at, last_write.
  assert (filter (written_at path) (modules s1)
    = filter (written_at path) (modules s2)) as ->; [|by rewrite Hgen].
  pose proof (written_at_once (modules s1) path Hnodup) as Hlen.
  assert (Hf : filter (written_at path) (modules s1)
    ≡ₚ filter (written_at path) (modules s2)) by (by rewrite Hperm).
  destruct (filter (written_at path) (modules s1)) as [|m [|m' l]];
    simpl in Hlen; [| |lia].
  - by apply Permutation_nil_l in Hf.
  - by apply Permutation_singleton_l in Hf.
Qed.

End SnapshotKeys.

(** X11: when a module of the sandbox has the path [/package.json],
    [generateFileFromSandbox] has no part in the snapshot: the snapshot
    is the same whatever it returns. *)
Theorem getModulesToSend_ignores_generator (env1 env2 : Environment) sandbox :
  "/package.json" ∈ module_paths sandbox →
  @getModulesToSend env1 sandbox = @getModulesToSend env2 sandbox.
Proof.
  intros Hin. unfold getModulesToSend; simpl.
  destruct (foldl record_module ∅ (modules sandbox) !! "/package.json")
    as [f|] eqn:Hpkg; [done|].
  apply (not_elem_of_dom_2 (D := gset string)) in Hpkg.
  rewrite foldl_record_module_dom in Hpkg. unfold module_paths in Hin.
  set_solver.
Qed.

(** * The configuration files panel

    [getIcon] and the part of [ConfigurationFilesComponent] that sorts
    the template's configuration files into the ones the sandbox has and
    the ones it lacks.

    - The three objects of that code are lists of own property and value,
      in the order the properties were created, with distinct keys;
      [keys] reads them back as [Object.keys] does, array indices first.
    - A string stands for the JavaScript string that has its characters
      as UTF-16 code units, one for one; on such strings [sort()] without
      a comparator orders as [String.le] does.  The theorem on the order
      of the rows is about ASCII paths.
    - An object literal inherits the properties of [Object.prototype];
      [getIcon] reads a property by name, so it sees them. *)

Module ConfigurationFiles.

Inductive Icon : Type :=
| NetlifyIcon
| NPMIcon
| ZeitIcon
| PrettierIcon
| JSIcon
| TypescriptIcon
| CodeSandboxIcon.

#[global] Instance Icon_eq_dec : EqDecision Icon.
Proof. solve_decision. Defined.

Definition icons : gmap string Icon :=
  {[ "netlify.toml" := NetlifyIcon;
     "package.json" := NPMIcon;
     "now.json" := ZeitIcon;
     ".prettierrc" := PrettierIcon;
     "jsconfig.json" := JSIcon;
     "tsconfig.json" := TypescriptIcon;
     "sandbox.config.json" := CodeSandboxIcon ]}.

(** What [icons[name] || JSIcon] evaluates to: an icon component, or the
    value that [Object.prototype] holds under the name. *)
Inductive Found : Type :=
| Component (icon : Icon)
| Inherited (name : string).

Section Icons.

(** Whether [Object.prototype] has, under a name, a property with a
    truthy value.  In a standard environment these are its functions
    ([constructor], [toString], [valueOf], [hasOwnProperty], ...) and
    [__proto__]. *)
Variable inherited : string → bool.

(** [icons[name] || JSIcon]: an own property of [icons] comes before an
    inherited one, and a component is truthy. *)
Definition getIcon (name : string) : Found :=
  match icons !! name with
  | Some icon => Component icon
  | None => if inherited name then Inherited name else Component JSIcon
  end.

End Icons.

(** An entry of a template's [configurationFiles]; the panel reads its
    title and description. *)
Record ConfigurationFile : Type := mkConfigurationFile {
  title : string;
  description : string;
}.

(** [o[key]] for an own property; [None] is [undefined]. *)
Fixpoint get {V} (o : list (string * V)) (key : string) : option V :=
  match o with
  | [] => None
  | (k, v) :: o' => if decide (k = key) then Some v else get o' key
  end.

(** [o[key] = v]: a property the object has keeps its place in the order
    of creation, a new property is the last one created. *)
Definition set {V} (o : list (string * V)) (key : string) (v : V) : list (string * V) :=
  if decide (key ∈ o.*1)
  then (λ kv, if decide (kv.1 = key) then (key, v) else kv) <$> o
  else o ++ [(key, v)].

(** The value of a decimal digit. *)
Definition digit (a : Ascii.ascii) : option N :=
  let n := Ascii.N_of_ascii a in
  if ((48 <=? n) && (n <=? 57))%N then Some (n - 48)%N else None.

Fixpoint decimal (s : string) (value : N) : option N :=
  match s with
  | "" => Some value
  | String a s' =>
      match digit a with
      | Some d => decimal s' (10 * value + d)%N
      | None => None
      end
  end.

(** A key is an array index when it is the canonical decimal numeral of
    a number below 2^32 - 1 (no sign, no leading zero). *)
Definition array_index (key : string) : option N :=
  match key with
  | "" => None
  | String a rest =>
      if bool_decide (String a "" = "0") && negb (bool_decide (rest = ""))
      then None
      else match decimal key 0 with
           | Some n => if (n <? 4294967295)%N then Some n else None
           | None => None
           end
  end.

Definition index_le (a b : N * string) : Prop := (a.1 ≤ b.1)%N.

#[global] Instance index_le_dec : RelDecision index_le.
Proof. intros a b. unfold index_le. apply _. Defined.

(** [Object.keys(o)]: the array indices in ascending numeric order, then
    the other keys in the order of creation. *)
Definition keys {V} (o : list (string * V)) : list string :=
  (merge_sort index_le
     (omap (λ key, (λ n, (n, key)) <$> array_index key) o.*1)).*2
  ++ filter (λ key, array_index key = None) o.*1.

(** An absolute path written in ASCII. *)
Definition ascii_absolute_path (p : string) : bool :=
  match p with
  | "" => false
  | String a _ =>
      bool_decide (String a "" = "/")
      && forallb (λ c, (Ascii.N_of_ascii c <? 128)%N)
           (String.list_ascii_of_string p)
  end.

Section Component.

(** The modules and directories of the sandbox, and [resolveModule] of
    [@codesandbox/common/lib/sandbox/modules], which returns the module at
    a path or throws ([None]; the component drops what was thrown). *)
Context {SandboxModule Directory : Type}.
Variable resolveModule :
  string → list SandboxModule → list Directory → option SandboxModule.

Variable configurationFiles : list (string * ConfigurationFile).
Variable modules : list SandboxModule.
Variable directories : list Directory.

(** The body of the [forEach] callback, on the pair of [createdPaths] and
    [restPaths]; [config] is [undefined] ([None]) for a path that is no
    key. *)
Definition visit
    (acc : list (string * (option ConfigurationFile * SandboxModule))
           * list (string * option ConfigurationFile))
    (p : string) :=
  let config := get configurationFiles p in
  match resolveModule p modules directories with
  | Some module => (set acc.1 p (config, module), acc.2)
  | None => (acc.1, set acc.2 p config)
  end.

(** [Object.keys(configurationFiles).sort()]. *)
Definition sorted_paths : list string :=
  merge_sort String.le (keys configurationFiles).

Definition createdPaths : list (string * (option ConfigurationFile * SandboxModule)) :=
  (foldl visit ([], []) sorted_paths).1.

Definition restPaths : list (string * option ConfigurationFile) :=
  (foldl visit ([], []) sorted_paths).2.

(** What the loop builds, path by path. *)
Definition created_entry (p : string) :=
  (λ module, (p, (get configurationFiles p, module)))
    <$> resolveModule p modules directories.

Definition rest_entry (p : string) :=
  match resolveModule p modules directories with
  | Some _ => None
  | None => Some (p, get configurationFiles p)
  end.

Lemma set_new {V} (o : list (string * V)) key v :
  key ∉ o.*1 → set o key v = o ++ [(key, v)].
Proof. intros Hnew. unfold set. by rewrite decide_False. Qed.

Lemma created_entry_keys ps :
  (omap created_entry ps).*1
  = filter (λ p, is_Some (resolveModule p modules directories)) ps.
Proof.
  induction ps as [|p ps IH]; [done|].
  rewrite filter_cons, <- IH. clear IH.
  change (p :: ps) with ([p] ++ ps). rewrite omap_app, fmap_app.
  case_decide as Hp; simpl; unfold created_entry at 1;
    destruct (resolveModule p modules directories); simpl; try done.
  destruct Hp. eauto.
Qed.

Lemma rest_entry_keys ps :
  (omap rest_entry ps).*1
  = filter (λ p, ¬ is_Some (resolveModule p modules directories)) ps.
Proof.
  induction ps as [|p ps IH]; [done|].
  rewrite filter_cons, <- IH. clear IH.
  change (p :: ps) with ([p] ++ ps). rewrite omap_app, fmap_app.
  case_decide as Hp; simpl; unfold rest_entry at 1;
    destruct (resolveModule p modules directories); simpl; try done.
  destruct Hp. eauto.
Qed.

Lemma created_entry_singleton p :
  omap created_entry [p]
  = match resolveModule p modules directories with
    | Some module => [(p, (get configurationFiles p, module))]
    | None => []
    end.
Proof.
  unfold created_entry. simpl.
  by destruct (resolveModule p modules directories).
Qed.

Lemma rest_entry_singleton p :
  omap rest_entry [p]
  = match resolveModule p modules directories with
    | Some _ => []
    | None => [(p, get configurationFiles p)]
    end.
Proof.
  unfold rest_entry. simpl.
  by destruct (resolveModule p modules directories).
Qed.

Lemma foldl_visit ps :
  NoDup ps →
  foldl visit ([], []) ps = (omap created_entry ps, omap rest_entry ps).
Proof.
  induction ps as [|p ps IH] using rev_ind; [done|].
  intros (Hps & Hnew & _)%NoDup_app.
  rewrite foldl_snoc, IH, !omap_app by done.
  rewrite created_entry_singleton, rest_entry_singleton.
  unfold visit.
  destruct (resolveModule p modules directories) as [m|];
    cbn [fst snd]; rewrite set_new, app_nil_r; try done.
  - rewrite created_entry_keys. intros [_ Hin]%list_elem_of_filter.
    apply (Hnew p Hin). left.
  - rewrite rest_entry_keys. intros [_ Hin]%list_elem_of_filter.
    apply (Hnew p Hin). left.
Qed.

Lemma StronglySorted_filter {A} (R : relation A) (P : A → Prop)
    `{∀ x, Decision (P x)} (l : list A) :
  StronglySorted R l → StronglySorted R (filter P l).
Proof.
  induction l as [|x l IH]; [done|].
  intros [Hx Hl]%StronglySorted_cons. rewrite filter_cons.
  case_decide; [|by apply IH].
  apply StronglySorted_cons. split; [|by apply IH].
  apply Forall_forall. intros y [_ Hy]%list_elem_of_filter.
  by apply (proj1 (Forall_forall _ _) Hx).
Qed.

Lemma get_Some {V} (o : list (string * V)) key v :
  NoDup o.*1 → get o key = Some v ↔ (key, v) ∈ o.
Proof.
  induction o as [|[k v'] o IH]; simpl.
  - intros _. split; [done|]. by intros ?%elem_of_nil.
  - intros [Hk Ho]%NoDup_cons. rewrite elem_of_cons, <- IH by done.
    case_decide as Hkey.
    + subst k. split; [intros [= ->]; by left|].
      intros [[= ->]|Hget]; [done|].
      apply IH in Hget; [|done]. destruct Hk.
      apply list_elem_of_fmap. by exists (key, v).
    + split; [by right|]. intros [[= -> ->]|]; done.
Qed.

Lemma index_keys (ks : list string) :
  (omap (λ key, (λ n, (n, key)) <$> array_index key) ks).*2
  = filter (λ key, is_Some (array_index key)) ks.
Proof.
  induction ks as [|k ks IH]; [done|].
  rewrite filter_cons, <- IH. clear IH.
  change (k :: ks) with ([k] ++ ks). rewrite omap_app, fmap_app.
  case_decide as Hk; simpl; destruct (array_index k) as [n|]; simpl;
    try done; destruct Hk; eauto.
Qed.

Lemma keys_Permutation {V} (o : list (string * V)) : keys o ≡ₚ o.*1.
Proof.
  unfold keys. rewrite merge_sort_Permutation, index_keys.
  rewrite (list_filter_iff (λ key, array_index key = None)
             (λ key, ¬ is_Some (array_index key)))
    by (intros key; apply eq_None_not_Some).
  apply filter_app_complement.
Qed.

Lemma keys_no_index {V} (o : list (string * V)) :
  Forall (λ key, array_index key = None) o.*1 → keys o = o.*1.
Proof.
  unfold keys. generalize (o.*1). intros ks Hks.
  assert (omap (λ key, (λ n, (n, key)) <$> array_index key) ks = []) as ->.
  { induction Hks as [|k ks Hk _ IH]; [done|].
    change (k :: ks) with ([k] ++ ks). rewrite omap_app, IH. simpl.
    by rewrite Hk. }
  simpl. induction Hks as [|k ks Hk _ IH]; [done|].
  rewrite filter_cons, decide_True by done. by rewrite IH.
Qed.

Lemma ascii_absolute_path_no_index p :
  ascii_absolute_path p → array_index p = None.
Proof.
  destruct p as [|a rest]; [done|]. simpl.
  intros [Ha%bool_decide_unpack _]%andb_True.
  injection Ha as ->. done.
Qed.

Lemma paths_sorted :
  sorted_paths ≡ₚ configurationFiles.*1 ∧ StronglySorted String.le sorted_paths.
Proof.
  split.
  - unfold sorted_paths. by rewrite merge_sort_Permutation, keys_Permutation.
  - apply (StronglySorted_merge_sort String.le).
Qed.

Lemma configuration_paths_eq :
  NoDup configurationFiles.*1 →
  createdPaths = omap created_entry sorted_paths
  ∧ restPaths = omap rest_entry sorted_paths.
Proof.
  intros Hnodup. unfold createdPaths, restPaths.
  rewrite foldl_visit; [done|].
  by rewrite (proj1 paths_sorted).
Qed.

(** X12: every configuration file of the template is in exactly one of
    the two lists: in [createdPaths] when [resolveModule] finds a module
    at its path, in [restPaths] when it throws. *)
Theorem configuration_paths_partition :
  NoDup configurationFiles.*1 →
  (∀ p, p ∈ createdPaths.*1
        ↔ p ∈ configurationFiles.*1
          ∧ is_Some (resolveModule p modules directories))
  ∧ (∀ p, p ∈ restPaths.*1
          ↔ p ∈ configurationFiles.*1
            ∧ resolveModule p modules directories = None)
  ∧ NoDup (createdPaths.*1 ++ restPaths.*1)
  ∧ createdPaths.*1 ++ restPaths.*1 ≡ₚ configurationFiles.*1.
Proof.
  intros Hnodup.
  destruct (configuration_paths_eq Hnodup) as [-> ->].
  destruct paths_sorted as [Hperm _].
  rewrite created_entry_keys, rest_entry_keys.
  assert (Hall : filter (λ p, is_Some (resolveModule p modules directories))
                   sorted_paths
                 ++ filter (λ p, ¬ is_Some (resolveModule p modules directories))
                      sorted_paths
                 ≡ₚ configurationFiles.*1)
    by (by rewrite filter_app_complement).
  split; [|split; [|split]].
  - intros p. rewrite list_elem_of_filter, Hperm. naive_solver.
  - intros p. rewrite list_elem_of_filter, Hperm, eq_None_not_Some.
    naive_solver.
  - by rewrite Hall.
  - done.
Qed.

(** X13: an entry of [createdPaths] holds the configuration of its path,
    never [undefined], and the module [resolveModule] returned for that
    path; an entry of [restPaths] holds the configuration of its path. *)
Theorem configuration_paths_entries :
  NoDup configurationFiles.*1 →
  (∀ p config module,
     (p, (config, module)) ∈ createdPaths
     ↔ (∃ c, (p, c) ∈ configurationFiles ∧ config = Some c)
       ∧ resolveModule p modules directories = Some module)
  ∧ (∀ p config,
       (p, config) ∈ restPaths
       ↔ (∃ c, (p, c) ∈ configurationFiles ∧ config = Some c)
         ∧ resolveModule p modules directories = None).
Proof.
  intros Hnodup.
  destruct (configuration_paths_eq Hnodup) as [-> ->].
  destruct paths_sorted as [Hperm _].
  assert (Hkey : ∀ p, p ∈ sorted_paths →
    ∃ c, (p, c) ∈ configurationFiles ∧ get configurationFiles p = Some c).
  { intros p Hp. rewrite Hperm in Hp.
    apply list_elem_of_fmap in Hp as ([k c] & -> & Hin).
    exists c. split; [done|]. by apply get_Some. }
  split.
  - intros p config module. rewrite list_elem_of_omap. split.
    + intros (q & Hq & Hentry). unfold created_entry in Hentry.
      destruct (resolveModule q modules directories) eqn:Hres; [|done].
      simpl in Hentry. injection Hentry as -> <- ->.
      destruct (Hkey _ Hq) as (c & ? & ->). eauto.
    + intros [(c & Hc & ->) Hres]. exists p. split.
      * rewrite Hperm. apply list_elem_of_fmap. by exists (p, c).
      * unfold created_entry. rewrite Hres. simpl.
        by rewrite (proj2 (get_Some _ _ _ Hnodup) Hc).
  - intros p config. rewrite list_elem_of_omap. split.
    + intros (q & Hq & Hentry). unfold rest_entry in Hentry.
      destruct (resolveModule q modules directories) eqn:Hres; [done|].
      injection Hentry as -> <-.
      destruct (Hkey _ Hq) as (c & ? & ->). eauto.
    + intros [(c & Hc & ->) Hres]. exists p. split.
      * rewrite Hperm. apply list_elem_of_fmap. by exists (p, c).
      * unfold rest_entry. rewrite Hres.
        by rewrite (proj2 (get_Some _ _ _ Hnodup) Hc).
Qed.

(** X14: when the configuration paths are absolute paths in ASCII, the
    rows of both lists, [Object.keys(createdPaths)] and
    [Object.keys(restPaths)], come in the order the entries were created,
    which is the ascending order of path. *)
Theorem configuration_paths_sorted :
  NoDup configurationFiles.*1 →
  Forall ascii_absolute_path configurationFiles.*1 →
  (keys createdPaths = createdPaths.*1
   ∧ StronglySorted String.le (keys createdPaths))
  ∧ (keys restPaths = restPaths.*1
     ∧ StronglySorted String.le (keys restPaths)).
Proof.
  intros Hnodup Hpaths.
  assert (Hsub : ∀ (ps : list string),
    (∀ p, p ∈ ps → p ∈ configurationFiles.*1) →
    Forall (λ key, array_index key = None) ps).
  { intros ps Hps. apply Forall_forall. intros p Hp.
    apply ascii_absolute_path_no_index.
    by apply (proj1 (Forall_forall _ _) Hpaths), Hps. }
  destruct (configuration_paths_eq Hnodup) as [Hc Hr].
  destruct paths_sorted as [Hperm Hsorted].
  assert (Hck : createdPaths.*1
    = filter (λ p, is_Some (resolveModule p modules directories)) sorted_paths)
    by (by rewrite Hc, created_entry_keys).
  assert (Hrk : restPaths.*1
    = filter (λ p, ¬ is_Some (resolveModule p modules directories)) sorted_paths)
    by (by rewrite Hr, rest_entry_keys).
  rewrite !keys_no_index.
  - rewrite Hck, Hrk. repeat split; by apply StronglySorted_filter.
  - apply Hsub. intros p. rewrite Hrk, list_elem_of_filter, Hperm. by intros [_ ?].
  - apply Hsub. intros p. rewrite Hck, list_elem_of_filter, Hperm. by intros [_ ?].
Qed.

End Component.

(** What [icons] holds, name by name. *)
Lemma icons_cases name :
  name = "netlify.toml" ∧ icons !! name = Some NetlifyIcon
  ∨ name = "package.json" ∧ icons !! name = Some NPMIcon
  ∨ name = "now.json" ∧ icons !! name = Some ZeitIcon
  ∨ name = ".prettierrc" ∧ icons !! name = Some PrettierIcon
  ∨ name = "tsconfig.json" ∧ icons !! name = Some TypescriptIcon
  ∨ name = "sandbox.config.json" ∧ icons !! name = Some CodeSandboxIcon
  ∨ name = "jsconfig.json" ∧ icons !! name = Some JSIcon
  ∨ (name ∉ ["netlify.toml"; "package.json"; "now.json"; ".prettierrc";
             "tsconfig.json"; "sandbox.config.json"; "jsconfig.json"])
    ∧ icons !! name = None.
Proof.
  destruct (decide (name = "netlify.toml")) as [->|?]; [by left|right].
  destruct (decide (name = "package.json")) as [->|?]; [by left|right].
  destruct (decide (name = "now.json")) as [->|?]; [by left|right].
  destruct (decide (name = ".prettierrc")) as [->|?]; [by left|right].
  destruct (decide (name = "tsconfig.json")) as [->|?]; [by left|right].
  destruct (decide (name = "sandbox.config.json")) as [->|?]; [by left|right].
  destruct (decide (name = "jsconfig.json")) as [->|?]; [by left|right].
  split; [set_solver|].
  unfold icons. by rewrite !lookup_insert_ne, lookup_singleton_ne by done.
Qed.

(** X15: for a name that [Object.prototype] has no truthy property for,
    [getIcon] returns the JavaScript icon exactly when the name is none
    of the six names with an icon of their own; for a name outside its
    table that [Object.prototype] has a truthy property for, it returns
    that inherited value, which is no icon; and each of the six other
    icons is returned for one name only. *)
Theorem getIcon_fallback (inherited : string → bool) name :
  (inherited name = false →
     (getIcon inherited name = Component JSIcon
      ↔ (name ∉ ["netlify.toml"; "package.json"; "now.json"; ".prettierrc";
                 "tsconfig.json"; "sandbox.config.json"])))
  ∧ (inherited name = true →
     (name ∉ ["netlify.toml"; "package.json"; "now.json"; ".prettierrc";
              "tsconfig.json"; "sandbox.config.json"; "jsconfig.json"]) →
     getIcon inherited name = Inherited name)
  ∧ (∀ other icon,
       icon ≠ JSIcon →
       getIcon inherited name = Component icon →
       getIcon inherited other = Component icon →
       other = name).
Proof.
  unfold getIcon. split; [|split].
  - intros Hname.
    destruct (icons_cases name)
      as [[-> ->]|[[-> ->]|[[-> ->]|[[-> ->]|[[-> ->]|[[-> ->]|[[-> ->]|[? ->]]]]]]]];
      rewrite ?Hname; (split; [intros ?|intros Hn]); try done;
      try (exfalso; apply Hn; set_solver); set_solver.
  - intros Hname Hout.
    destruct (icons_cases name)
      as [[-> _]|[[-> _]|[[-> _]|[[-> _]|[[-> _]|[[-> _]|[[-> _]|[_ ->]]]]]]]];
      try (exfalso; apply Hout; set_solver).
    by rewrite Hname.
  - intros other icon Hicon.
    destruct (icons_cases name)
      as [[-> ->]|[[-> ->]|[[-> ->]|[[-> ->]|[[-> ->]|[[-> ->]|[[-> ->]|[? ->]]]]]]]];
      (destruct (inherited name) eqn:?; intros [= <-]) || intros [= <-];
      try done;
      destruct (icons_cases other)
        as [[-> ->]|[[-> ->]|[[-> ->]|[[-> ->]|[[-> ->]|[[-> ->]|[[-> ->]|[? ->]]]]]]]];
      try done; destruct (inherited other); done.
Qed.

End ConfigurationFiles.

(** * The further theorems at sample inputs *)

Definition b_js : Mod.t :=
  {| Mod.path := Val "/b.js"; Mod.code := Val "y";
     Mod.savedCode := Val "y"; Mod.isBinary := Val false |}.

Definition package_json : Mod.t :=
  {| Mod.path := Val "/package.json"; Mod.code := Val "{}";
     Mod.savedCode := Val "{}"; Mod.isBinary := Val false |}.

Definition two_modules : Sandbox :=
  {| id := "two"; template := "node"; modules := [a_js; b_js] |}.

Definition two_modules_swapped : Sandbox :=
  {| id := "two"; template := "node"; modules := [b_js; a_js] |}.

Definition with_manifest : Sandbox :=
  {| id := "own"; template := "node"; modules := [a_js; package_json] |}.

(** [quiet] with another manifest generator. *)
Definition quiet_other_generator : Environment :=
  {| generateFileFromSandbox := λ _, "generated";
     getDefinition := sample_getDefinition;
     STAGING_API := Val "";
     backend := quiet_backend |}.

(** [closed_world] after [initializeExecutor(server_sandbox)]. *)
Definition reopened_world : World :=
  {| executor := Some {| class := ServerExecutor; ref := 1 |};
     fresh := 2;
     calls := calls closed_world
              ++ [New {| class := ServerExecutor; ref := 1 |};
                  Initialize {| class := ServerExecutor; ref := 1 |}
                             (@init_options quiet server_sandbox)] |}.

(** [server_world] after a failed dispose. *)
Definition dispose_failed_world : World :=
  {| executor := Some server_executor;
     fresh := 1;
     calls := calls server_world ++ [Dispose server_executor] |}.

Lemma server_world_reachable : @reachable quiet server_world.
Proof.
  apply rtc_once.
  apply (@step_initializeExecutor quiet server_sandbox _ _
           (inr (Some server_executor))).
  by vm_compute.
Qed.

Lemma initializeExecutor_failure_witness :
  @initializeExecutor failing browser_sandbox server_world
    = (dispose_failed_world, inl (BackendError "dispose failed"))
  ∧ ∃ history c message,
      calls dispose_failed_world = history ++ [c]
      ∧ @backend failing history c = Some message
      ∧ BackendError "dispose failed" = BackendError message
      ∧ ((∃ e, c = Dispose e
               ∧ class e ≠ @required_class failing browser_sandbox
               ∧ executor server_world = Some e
               ∧ executor dispose_failed_world = Some e)
         ∨ (∃ e, c = New e
                 ∧ class e = @required_class failing browser_sandbox
                 ∧ executor dispose_failed_world = None)
         ∨ (∃ e, c = Initialize e (@init_options failing browser_sandbox)
                 ∧ class e = @required_class failing browser_sandbox
                 ∧ executor dispose_failed_world = Some e)).
Proof.
  assert (Hrun : @initializeExecutor failing browser_sandbox server_world
    = (dispose_failed_world, inl (BackendError "dispose failed")))
    by (vm_compute; reflexivity).
  split; [exact Hrun|].
  exact (@initializeExecutor_failure failing _ _ _ _ Hrun).
Defined.

Lemma isServer_after_initializeExecutor_witness :
  @initializeExecutor quiet browser_sandbox server_world
    = (browser_world, inr (Some browser_executor))
  ∧ isServer browser_world = (browser_world, inr false).
Proof.
  assert (Hrun : @initializeExecutor quiet browser_sandbox server_world
    = (browser_world, inr (Some browser_executor)))
    by (vm_compute; reflexivity).
  split; [exact Hrun|].
  exact (@isServer_after_initializeExecutor quiet _ _ _ _ Hrun).
Defined.

Lemma closeExecutor_failure_witness :
  @closeExecutor failing server_world
    = (dispose_failed_world, inl (BackendError "dispose failed"))
  ∧ ((executor server_world = None
      ∧ dispose_failed_world = server_world
      ∧ BackendError "dispose failed" = TypeError "dispose")
     ∨ (∃ e message,
          executor server_world = Some e
          ∧ @backend failing (calls server_world) (Dispose e) = Some message
          ∧ BackendError "dispose failed" = BackendError message
          ∧ executor dispose_failed_world = Some e
          ∧ calls_since server_world dispose_failed_world = [Dispose e])).
Proof.
  assert (Hrun : @closeExecutor failing server_world
    = (dispose_failed_world, inl (BackendError "dispose failed")))
    by (vm_compute; reflexivity).
  split; [exact Hrun|].
  exact (@closeExecutor_failure failing _ _ _ Hrun).
Defined.

Lemma delegation_keeps_executor_witness :
  (@setupExecutor quiet server_world
     = (mkWorld (Some server_executor) 1
                (calls server_world ++ [Setup server_executor]), inr ())
   ∨ @updateFiles quiet browser_sandbox server_world
     = (mkWorld (Some server_executor) 1
                (calls server_world ++ [Setup server_executor]), inr ()))
  ∧ executor (mkWorld (Some server_executor) 1
                (calls server_world ++ [Setup server_executor]))
    = executor server_world.
Proof.
  assert (Hrun : @setupExecutor quiet server_world
     = (mkWorld (Some server_executor) 1
                (calls server_world ++ [Setup server_executor]), inr ()))
    by (vm_compute; reflexivity).
  split; [by left|].
  exact (proj1 (@delegation_keeps_executor quiet browser_sandbox _ _ _
                  (or_introl Hrun))).
Defined.

Lemma after_closeExecutor_witness :
  @closeExecutor quiet server_world = (closed_world, inr ())
  ∧ isServer closed_world = (closed_world, inr false)
  ∧ @setupExecutor quiet closed_world = (closed_world, inl (TypeError "setup"))
  ∧ @updateFiles quiet browser_sandbox closed_world
    = (closed_world, inl (TypeError "updateFiles"))
  ∧ @closeExecutor quiet closed_world
    = (closed_world, inl (TypeError "dispose")).
Proof.
  assert (Hrun : @closeExecutor quiet server_world = (closed_world, inr ()))
    by (vm_compute; reflexivity).
  split; [exact Hrun|].
  exact (@after_closeExecutor quiet browser_sandbox _ _ Hrun).
Defined.

Lemma initializeExecutor_after_close_witness :
  @reachable quiet server_world
  ∧ @closeExecutor quiet server_world = (closed_world, inr ())
  ∧ @initializeExecutor quiet server_sandbox closed_world
    = (reopened_world, inr (Some {| class := ServerExecutor; ref := 1 |}))
  ∧ ∃ closed created,
      executor server_world = Some closed
      ∧ Some {| class := ServerExecutor; ref := 1 |} = Some created
      ∧ executor reopened_world = Some created
      ∧ created ≠ closed
      ∧ calls_since closed_world reopened_world
        = [New created; Initialize created (@init_options quiet server_sandbox)].
Proof.
  assert (H1 : @closeExecutor quiet server_world = (closed_world, inr ()))
    by (vm_compute; reflexivity).
  assert (H2 : @initializeExecutor quiet server_sandbox closed_world
    = (reopened_world, inr (Some {| class := ServerExecutor; ref := 1 |})))
    by (vm_compute; reflexivity).
  split; [exact server_world_reachable|]. split; [exact H1|].
  split; [exact H2|].
  exact (@initializeExecutor_after_close quiet _ _ _ _ _
           server_world_reachable H1 H2).
Defined.

Lemma reachable_one_live_witness :
  @reachable quiet server_world
  ∧ @live_executors quiet (calls server_world) = [server_executor]
  ∧ (length (@live_executors quiet (calls server_world)) ≤ 1)%nat.
Proof.
  split; [exact server_world_reachable|].
  exact (@reachable_one_live quiet server_world server_world_reachable).
Defined.

Lemma initializeExecutor_options_witness :
  @initializeExecutor quiet_other_generator browser_sandbox no_executor
    = (mkWorld (Some {| class := SandboxExecutor; ref := 0 |}) 1
         [New {| class := SandboxExecutor; ref := 0 |};
          Initialize {| class := SandboxExecutor; ref := 0 |}
            (@init_options quiet_other_generator browser_sandbox)],
       inr (Some {| class := SandboxExecutor; ref := 0 |}))
  ∧ ∃ host,
      last [New {| class := SandboxExecutor; ref := 0 |};
            Initialize {| class := SandboxExecutor; ref := 0 |}
              (@init_options quiet_other_generator browser_sandbox)]
        = Some (Initialize {| class := SandboxExecutor; ref := 0 |}
                  {| sandboxId := "new";
                     files := @getModulesToSend quiet_other_generator
                                browser_sandbox;
                     host := host |})
      ∧ (@staging quiet_other_generator ∧ host = "https://codesandbox.stream"
         ∨ ¬ @staging quiet_other_generator ∧ host = "https://codesandbox.io").
Proof.
  assert (Hrun :
    @initializeExecutor quiet_other_generator browser_sandbox no_executor
    = (mkWorld (Some {| class := SandboxExecutor; ref := 0 |}) 1
         [New {| class := SandboxExecutor; ref := 0 |};
          Initialize {| class := SandboxExecutor; ref := 0 |}
            (@init_options quiet_other_generator browser_sandbox)],
       inr (Some {| class := SandboxExecutor; ref := 0 |})))
    by (vm_compute; reflexivity).
  split; [exact Hrun|].
  exact (@initializeExecutor_options quiet_other_generator _ _ _ _ Hrun).
Defined.

Lemma getModulesToSend_permutation_witness :
  modules two_modules ≡ₚ modules two_modules_swapped
  ∧ NoDup (module_paths two_modules)
  ∧ @generateFileFromSandbox quiet two_modules
    = @generateFileFromSandbox quiet two_modules_swapped
  ∧ @getModulesToSend quiet two_modules
    = @getModulesToSend quiet two_modules_swapped.
Proof.
  assert (Hperm : modules two_modules ≡ₚ modules two_modules_swapped)
    by apply perm_swap.
  assert (Hnodup : NoDup (module_paths two_modules)).
  { change (NoDup ["/a.js"; "/b.js"]).
    repeat (apply NoDup_cons; split; [set_solver|]). apply NoDup_nil_2. }
  split; [exact Hperm|]. split; [exact Hnodup|]. split; [reflexivity|].
  exact (@getModulesToSend_permutation quiet _ _ Hperm Hnodup eq_refl).
Defined.

Lemma getModulesToSend_ignores_generator_witness :
  "/package.json" ∈ module_paths with_manifest
  ∧ @getModulesToSend quiet with_manifest
    = @getModulesToSend quiet_other_generator with_manifest.
Proof.
  assert (Hin : "/package.json" ∈ module_paths with_manifest).
  { change ("/package.json" ∈ ["/a.js"; "/package.json"]). set_solver. }
  split; [exact Hin|].
  exact (getModulesToSend_ignores_generator quiet quiet_other_generator _ Hin).
Defined.

Lemma initializeExecutor_returns_witness :
  (∀ history c, @backend quiet history c = None)
  ∧ ∃ w' e, @initializeExecutor quiet browser_sandbox server_world
            = (w', inr (Some e)).
Proof.
  assert (Hquiet : ∀ history c, @backend quiet history c = None)
    by reflexivity.
  split; [exact Hquiet|].
  exact (@initializeExecutor_returns quiet browser_sandbox server_world Hquiet).
Defined.

Lemma initializeAll_disposes_witness :
  let sandboxes := [browser_sandbox; browser_sandbox; server_sandbox] in
  let w := (@initializeAll quiet sandboxes server_world).1 in
  executor server_world = Some server_executor
  ∧ @initializeAll quiet sandboxes server_world = (w, inr ())
  ∧ length (filter is_dispose (calls_since server_world w)) = 2
  ∧ length (filter is_new (calls_since server_world w)) = 2.
Proof.
  intros sandboxes w.
  assert (Hrun : @initializeAll quiet sandboxes server_world = (w, inr ()))
    by (vm_compute; reflexivity).
  split; [reflexivity|]. split; [exact Hrun|].
  exact (@initializeAll_disposes quiet sandboxes server_world w
           server_executor eq_refl Hrun).
Defined.

(** A template with three configuration files, and a sandbox that has
    one of them. *)
Definition sample_configurationFiles
  : list (string * ConfigurationFiles.ConfigurationFile) :=
  [("/sandbox.config.json",
    ConfigurationFiles.mkConfigurationFile "sandbox.config.json" "Sandbox");
   ("/package.json",
    ConfigurationFiles.mkConfigurationFile "package.json" "Dependencies");
   ("/.prettierrc",
    ConfigurationFiles.mkConfigurationFile ".prettierrc" "Formatting")].

(** A [resolveModule] that finds the first module with the path. *)
Definition sample_resolveModule
    (p : string) (ms : list Mod.t) (ds : list ()) : option Mod.t :=
  head (filter (written_at p) ms).

Lemma sample_configurationFiles_NoDup : NoDup sample_configurationFiles.*1.
Proof.
  change (NoDup ["/sandbox.config.json"; "/package.json"; "/.prettierrc"]).
  repeat (apply NoDup_cons; split; [set_solver|]). apply NoDup_nil_2.
Qed.

Example sample_configuration_paths :
  ConfigurationFiles.createdPaths sample_resolveModule
    sample_configurationFiles [a_js; package_json] []
  = [("/package.json",
      (Some (ConfigurationFiles.mkConfigurationFile "package.json" "Dependencies"),
       package_json))]
  ∧ ConfigurationFiles.restPaths sample_resolveModule
      sample_configurationFiles [a_js; package_json] []
    = [("/.prettierrc",
        Some (ConfigurationFiles.mkConfigurationFile ".prettierrc" "Formatting"));
       ("/sandbox.config.json",
        Some (ConfigurationFiles.mkConfigurationFile "sandbox.config.json" "Sandbox"))].
Proof. by vm_compute. Qed.

Lemma configuration_paths_partition_witness :
  let resolve p := sample_resolveModule p [a_js; package_json] [] in
  let created :=
    ConfigurationFiles.createdPaths sample_resolveModule
      sample_configurationFiles [a_js; package_json] [] in
  let rest :=
    ConfigurationFiles.restPaths sample_resolveModule
      sample_configurationFiles [a_js; package_json] [] in
  NoDup sample_configurationFiles.*1
  ∧ (∀ p, p ∈ created.*1
          ↔ p ∈ sample_configurationFiles.*1 ∧ is_Some (resolve p))
  ∧ (∀ p, p ∈ rest.*1
          ↔ p ∈ sample_configurationFiles.*1 ∧ resolve p = None)
  ∧ NoDup (created.*1 ++ rest.*1)
  ∧ created.*1 ++ rest.*1 ≡ₚ sample_configurationFiles.*1.
Proof.
  intros resolve created rest.
  split; [exact sample_configurationFiles_NoDup|].
  exact (ConfigurationFiles.configuration_paths_partition sample_resolveModule
           sample_configurationFiles [a_js; package_json] []
           sample_configurationFiles_NoDup).
Defined.

Lemma configuration_paths_entries_witness :
  let resolve p := sample_resolveModule p [a_js; package_json] [] in
  let created :=
    ConfigurationFiles.createdPaths sample_resolveModule
      sample_configurationFiles [a_js; package_json] [] in
  let rest :=
    ConfigurationFiles.restPaths sample_resolveModule
      sample_configurationFiles [a_js; package_json] [] in
  NoDup sample_configurationFiles.*1
  ∧ (∀ p config module,
       (p, (config, module)) ∈ created
       ↔ (∃ c, (p, c) ∈ sample_configurationFiles ∧ config = Some c)
         ∧ resolve p = Some module)
  ∧ (∀ p config,
       (p, config) ∈ rest
       ↔ (∃ c, (p, c) ∈ sample_configurationFiles ∧ config = Some c)
         ∧ resolve p = None).
Proof.
  intros resolve created rest.
  split; [exact sample_configurationFiles_NoDup|].
  exact (ConfigurationFiles.configuration_paths_entries sample_resolveModule
           sample_configurationFiles [a_js; package_json] []
           sample_configurationFiles_NoDup).
Defined.

Lemma sample_configurationFiles_paths :
  Forall ConfigurationFiles.ascii_absolute_path sample_configurationFiles.*1.
Proof. by repeat constructor. Qed.

Lemma configuration_paths_sorted_witness :
  let created :=
    ConfigurationFiles.createdPaths sample_resolveModule
      sample_configurationFiles [a_js; package_json] [] in
  let rest :=
    ConfigurationFiles.restPaths sample_resolveModule
      sample_configurationFiles [a_js; package_json] [] in
  NoDup sample_configurationFiles.*1
  ∧ Forall ConfigurationFiles.ascii_absolute_path sample_configurationFiles.*1
  ∧ (ConfigurationFiles.keys created = created.*1
     ∧ StronglySorted String.le (ConfigurationFiles.keys created))
  ∧ (ConfigurationFiles.keys rest = rest.*1
     ∧ StronglySorted String.le (ConfigurationFiles.keys rest)).
Proof.
  intros created rest.
  split; [exact sample_configurationFiles_NoDup|].
  split; [exact sample_configurationFiles_paths|].
  exact (ConfigurationFiles.configuration_paths_sorted sample_resolveModule
           sample_configurationFiles [a_js; package_json] []
           sample_configurationFiles_NoDup sample_configurationFiles_paths).
Defined.

(** The names a standard [Object.prototype] has properties for. *)
Definition standard_inherited (name : string) : bool :=
  bool_decide (name ∈ ["constructor"; "toString"; "toLocaleString"; "valueOf";
                       "hasOwnProperty"; "isPrototypeOf";
                       "propertyIsEnumerable"; "__proto__";
                       "__defineGetter__"; "__defineSetter__";
                       "__lookupGetter__"; "__lookupSetter__"]).

Example getIcon_samples :
  ConfigurationFiles.getIcon standard_inherited "package.json"
    = ConfigurationFiles.Component ConfigurationFiles.NPMIcon
  ∧ ConfigurationFiles.getIcon standard_inherited "jsconfig.json"
    = ConfigurationFiles.Component ConfigurationFiles.JSIcon
  ∧ ConfigurationFiles.getIcon standard_inherited "babel.config.js"
    = ConfigurationFiles.Component ConfigurationFiles.JSIcon
  ∧ ConfigurationFiles.getIcon standard_inherited "constructor"
    = ConfigurationFiles.Inherited "constructor".
Proof. by vm_compute. Qed.

Lemma getIcon_fallback_witness :
  standard_inherited "toString" = true
  ∧ ("toString" ∉ ["netlify.toml"; "package.json"; "now.json"; ".prettierrc";
                   "tsconfig.json"; "sandbox.config.json"; "jsconfig.json"])
  ∧ ConfigurationFiles.getIcon standard_inherited "toString"
    = ConfigurationFiles.Inherited "toString".
Proof.
  assert (Hout : "toString" ∉ ["netlify.toml"; "package.json"; "now.json";
                               ".prettierrc"; "tsconfig.json";
                               "sandbox.config.json"; "jsconfig.json"])
    by set_solver.
  split; [reflexivity|]. split; [exact Hout|].
  exact (proj1 (proj2 (ConfigurationFiles.getIcon_fallback
                         standard_inherited "toString")) eq_refl Hout).
Defined.

(** [Object.keys] lists array indices first, by value; [sort()] then
    orders the keys as strings. *)
Example keys_array_indices_first :
  ConfigurationFiles.keys [("b", 1); ("10", 2); ("9", 3); ("07", 4)]
    = ["9"; "10"; "b"; "07"]
  ∧ merge_sort String.le
      (ConfigurationFiles.keys [("b", 1); ("10", 2); ("9", 3); ("07", 4)])
    = ["07"; "10"; "9"; "b"].
Proof. by vm_compute. Qed.
